(** * The diagnosis engine of the DLRover master, in Rocq

    A shallow embedding of [dlrover/python/master/diagnosis/diagnosis.py]:
    the per-type event store ([DiagnosisDataManager]), the [Diagnostician]
    and the [DiagnosisManager] with its background observation loop,
    followed by the properties of the engine's specification that the
    code does, or does not, satisfy. *)

From Stdlib Require Import ZArith List Lia String Sorted.
From stdpp Require Import base option list gmap strings fin_maps.

Local Open Scope string_scope.
Local Open Scope list_scope.
Local Open Scope Z_scope.

(** ** Time

    The wall clock is a [datetime], whose resolution is the microsecond:
    a point in time is the number of microseconds since the epoch.
    [datetime.fromtimestamp] places an event's timestamp on that line and
    [timedelta(seconds=p)] is a span of [p] seconds.  The reading of
    [datetime.now()] is an input of every operation that consults the
    clock. *)

Definition datetime := Z.

Definition fromtimestamp (timestamp : Z) : datetime := timestamp.

Definition timedelta (seconds : Z) : Z := seconds * 1000000.

(** [has_expired(timestamp, time_period)], with the clock reading [now]. *)
Definition has_expired (timestamp : Z) (time_period : Z) (now : datetime) : bool :=
  let dt := fromtimestamp timestamp in
  let expired_dt := dt + timedelta time_period in
  expired_dt <? now.

(** ** Diagnosis events *)

(** Modelled from the spec: the class [DiagnosisData] of
    [dlrover.python.diagnosis.common.diagnosis_data], an immutable record
    of a data type, a timestamp (here already in clock units) and an
    opaque payload. *)
Record DiagnosisData := mkDiagnosisData {
  data_type : string;
  timestamp : Z;
  payload : string
}.

#[global] Instance DiagnosisData_eq_dec : EqDecision DiagnosisData.
Proof. solve_decision. Defined.

(** ** [collections.deque], as far as the store uses it *)

Module Deque.

Record deque := mk {
  items : list DiagnosisData;
  maxlen : option Z
}.

(** [deque(maxlen=n)] *)
Definition new (n : Z) : deque := {| items := []; maxlen := Some n |}.

(** [deque(iterable)]: no [maxlen] is given, the deque is unbounded. *)
Definition of_iterable (l : list DiagnosisData) : deque :=
  {| items := l; maxlen := None |}.

(** [dq.append(x)]: the item is added on the right; a bounded deque
    that is then longer than [maxlen] discards one item on the left. *)
Definition append (dq : deque) (x : DiagnosisData) : deque :=
  let s := items dq ++ [x] in
  match maxlen dq with
  | Some n =>
      if n <? Z.of_nat (length s)
      then {| items := tail s; maxlen := Some n |}
      else {| items := s; maxlen := Some n |}
  | None => {| items := s; maxlen := None |}
  end.

(** [islice(dq, start, stop)] *)
Definition islice (dq : deque) (start stop : nat) : list DiagnosisData :=
  take (stop - start) (drop start (items dq)).

(** [len(dq)] *)
Definition len (dq : deque) : nat := length (items dq).

End Deque.

(** ** The data store: [DiagnosisDataManager] *)

Module DiagnosisDataManager.

Import Deque.

(** The capacity given to every deque the store creates on the first
    event of a type. *)
Definition capacity : Z := 100000.

Record t := mk {
  _diagnosis_data : gmap string deque;
  expire_time_period : Z
}.

(** [DiagnosisDataManager(expire_time_period=600)] *)
Definition init (expire_time_period : Z) : t :=
  {| _diagnosis_data := ∅; expire_time_period := expire_time_period |}.

Definition init_default : t := init 600.

(** The property [data]. *)
Definition data (self : t) : gmap string deque := _diagnosis_data self.

Definition set_data (self : t) (d : gmap string deque) : t :=
  {| _diagnosis_data := d; expire_time_period := expire_time_period self |}.

(** The [for] loop of [_clean_diagnosis_data]: [n] counts the expired
    events at the front and the scan breaks at the first one that has
    not expired.  The scan runs under the lock of [store_data]; the
    clock readings of its [has_expired] calls are taken as one instant,
    [now]. *)
Fixpoint scan_expired (period : Z) (now : datetime)
    (each_data : list DiagnosisData) (n : nat) : nat :=
  match each_data with
  | [] => n
  | d :: rest =>
      if has_expired (timestamp d) period now
      then scan_expired period now rest (n + 1)
      else n
  end.

Definition _clean_diagnosis_data (self : t) (data_type : string)
    (now : datetime) : t :=
  match data self !! data_type with
  | None => self
  | Some each_data =>
      let n := scan_expired (expire_time_period self) now (items each_data) 0 in
      if (0 <? n)%nat
      then set_data self
             (<[data_type := of_iterable (islice each_data n (len each_data))]>
                (data self))
      else self
  end.

(** [store_data(data)], run at clock reading [now]. *)
Definition store_data (self : t) (d : DiagnosisData) (now : datetime) : t :=
  let data_type := data_type d in
  let self1 :=
    match data self !! data_type with
    | None => set_data self (<[data_type := new capacity]> (data self))
    | Some _ => self
    end in
  let self2 :=
    match data self1 !! data_type with
    | Some dq => set_data self1 (<[data_type := append dq d]> (data self1))
    | None => self1 (* not reached: the key was bound just above *)
    end in
  _clean_diagnosis_data self2 data_type now.

(** [get_data(data_type)]: a new list with the items of the deque. *)
Definition get_data (self : t) (data_type : string) : list DiagnosisData :=
  match data self !! data_type with
  | None => []
  | Some dq => items dq
  end.

(** A run of [store_data] calls, each with its own clock reading. *)
Definition store_all (self : t) (calls : list (DiagnosisData * datetime)) : t :=
  fold_left (fun s c => store_data s (fst c) (snd c)) calls self.

End DiagnosisDataManager.

(** The deque of the event's type once the event has been appended and
    before the stale front is removed: the deque found under the key, or
    the new bounded one. *)
Definition appended (self : DiagnosisDataManager.t) (d : DiagnosisData)
    : Deque.deque :=
  Deque.append
    (default (Deque.new DiagnosisDataManager.capacity)
             (DiagnosisDataManager.data self !! data_type d))
    d.

(** The [n] most recent entries of a sequence, in their order. *)
Definition keep_last {A : Type} (n : nat) (l : list A) : list A :=
  drop (length l - n) l.

(** An event with an empty payload. *)
Definition event_at (ty : string) (t : Z) : DiagnosisData :=
  {| data_type := ty; timestamp := t; payload := "" |}.

(** [n] events of one type reported in real time, one per clock unit
    from [start] on: each is stored at the instant of its timestamp. *)
Definition burst (ty : string) (start : Z) (n : nat)
    : list (DiagnosisData * datetime) :=
  map (λ i, (event_at ty (start + Z.of_nat i), start + Z.of_nat i)) (seq 0 n).

(** ** The data store with object identity

    The same three methods over a heap of objects: the dictionary binds a
    type to the address of its deque, [get_data] allocates the list it
    returns, and a caller that holds the address of a list can change that
    list.  This is the model in which one can ask whether a caller holds a
    reference into the store. *)

Module Heap.

Import Deque.

Definition loc := positive.

Inductive obj :=
| ODeque (dq : deque)
| OList (l : list DiagnosisData).

Record state := mk {
  heap : gmap loc obj;
  data : gmap string loc;
  expire_time_period : Z
}.

Definition init (expire_time_period : Z) : state :=
  {| heap := ∅; data := ∅; expire_time_period := expire_time_period |}.

Definition set_heap (st : state) (h : gmap loc obj) : state :=
  {| heap := h; data := data st; expire_time_period := expire_time_period st |}.

(** A new object, at an address not in use. *)
Definition alloc (st : state) (o : obj) : loc * state :=
  let p := fresh (dom (heap st)) in
  (p, set_heap st (<[p := o]> (heap st))).

(** [self.data[data_type] = <the object at p>] *)
Definition bind (st : state) (data_type : string) (p : loc) : state :=
  {| heap := heap st; data := <[data_type := p]> (data st);
     expire_time_period := expire_time_period st |}.

(** The deque at an address. *)
Definition deque_at (h : gmap loc obj) (p : loc) : option deque :=
  match h !! p with
  | Some (ODeque dq) => Some dq
  | _ => None
  end.

Definition _clean_diagnosis_data (st : state) (data_type : string)
    (now : datetime) : state :=
  match data st !! data_type with
  | None => st
  | Some p =>
      match deque_at (heap st) p with
      | None => st (* not reached: the dictionary holds deques only *)
      | Some each_data =>
          let n := DiagnosisDataManager.scan_expired
                     (expire_time_period st) now (items each_data) 0 in
          if (0 <? n)%nat
          then let '(q, st') :=
                 alloc st (ODeque (of_iterable
                                     (islice each_data n (len each_data)))) in
               bind st' data_type q
          else st
      end
  end.

(** [if data_type not in self.data: self.data[data_type] = deque(maxlen=100000)] *)
Definition ensure_deque (st : state) (data_type : string) : state :=
  match data st !! data_type with
  | None =>
      let '(p, st') := alloc st (ODeque (new DiagnosisDataManager.capacity)) in
      bind st' data_type p
  | Some _ => st
  end.

(** [self.data[data_type].append(data)]: the deque object is changed in
    place. *)
Definition append_data (st : state) (data_type : string) (d : DiagnosisData)
    : state :=
  match data st !! data_type with
  | Some p =>
      match deque_at (heap st) p with
      | Some dq => set_heap st (<[p := ODeque (append dq d)]> (heap st))
      | None => st (* not reached: the dictionary holds deques only *)
      end
  | None => st (* not reached: the key is bound when this runs *)
  end.

Definition store_data (st : state) (d : DiagnosisData) (now : datetime)
    : state :=
  let data_type := data_type d in
  let st := ensure_deque st data_type in
  let st := append_data st data_type d in
  _clean_diagnosis_data st data_type now.

(** [get_data(data_type)]: the address of the list returned and the state
    afterwards; [None] stands for an error. *)
Definition get_data (st : state) (data_type : string) : option (loc * state) :=
  match data st !! data_type with
  | None => Some (alloc st (OList []))
  | Some p =>
      match deque_at (heap st) p with
      | Some dq => Some (alloc st (OList (items dq)))
      | None => None
      end
  end.

(** Any change a caller makes to a list it holds: [f] is the effect of
    the list method on the contents ([append], [pop], [clear], [sort],
    item assignment, ...).  Only a list can be changed this way. *)
Definition mutate_list (st : state) (p : loc)
    (f : list DiagnosisData → list DiagnosisData) : state :=
  match heap st !! p with
  | Some (OList l) => set_heap st (<[p := OList (f l)]> (heap st))
  | _ => st
  end.

(** What the store holds: the deque of each type. *)
Definition contents (st : state) : gmap string deque :=
  omap (deque_at (heap st)) (data st).

(** The store as a value, forgetting addresses. *)
Definition abs (st : state) : DiagnosisDataManager.t :=
  {| DiagnosisDataManager._diagnosis_data := contents st;
     DiagnosisDataManager.expire_time_period := expire_time_period st |}.

(** The dictionary holds deques, and no deque is bound to two types. *)
Definition wf (st : state) : Prop :=
  (∀ ty p, data st !! ty = Some p → is_Some (deque_at (heap st) p)) ∧
  (∀ ty1 ty2 p, data st !! ty1 = Some p → data st !! ty2 = Some p → ty1 = ty2).

Definition store_all (st : state) (calls : list (DiagnosisData * datetime))
    : state :=
  fold_left (λ s c, store_data s (fst c) (snd c)) calls st.

End Heap.

(** ** Inferences and operators *)

(** Modelled from the spec: the enumerations and the class [Inference]
    of [dlrover.python.diagnosis], a proposition made of a subject, a
    relation and a predicate.  The source names one member of each
    enumeration; the others are kept apart under their tag. *)
Inductive InferenceName :=
| TRAINING
| OtherName (tag : string).

Inductive InferenceAttribute :=
| ISORNOT
| OtherAttribute (tag : string).

Inductive InferenceDescription :=
| HANG
| OtherDescription (tag : string).

Record Inference := mkInference {
  name : InferenceName;
  attribute : InferenceAttribute;
  description : InferenceDescription
}.

(** The operators the source instantiates.  [CheckTrainingHangOperator]
    is built over the manager's data store. *)
Inductive InferenceOperator :=
| CheckTrainingHangOperator.

(** ** Exceptions, values and effects *)

(** A raised exception: its class, its message, and whether the class
    derives from [Exception] (what [except Exception] catches). *)
Record exn := mkExn {
  exn_class : string;
  exn_msg : string;
  is_Exception : bool
}.

Inductive result (A : Type) :=
| Ok (a : A)
| Raise (e : exn).
Arguments Ok {A} a.
Arguments Raise {A} e.

(** What a method hands back where the source may return [None]. *)
Inductive pyvalue :=
| PyNone
| PyList (l : list Inference).

Inductive level := INFO | ERROR.

Inductive logarg :=
| ArgInference (i : Inference)
| ArgSize (n : Z)
| ArgExn (e : exn).

(** The interval constant of [DiagnosisConstant], whose value the source
    under study does not give. *)
Inductive interval := MASTER_DIAGNOSIS_OBSERVING_INTERVAL_SECS.

(** What the engine does to the world around it: a log record (the
    message with its interpolated values), the evaluation of an inference
    chain over seeds and operators, the start of a thread, a sleep. *)
Inductive effect :=
| Log (lvl : level) (msg : string) (args : list logarg)
| ChainInfer (seeds : list Inference) (operators : list InferenceOperator)
| ThreadStart (name : string) (daemon : bool)
| Sleep (secs : interval).

(** A computation that leaves a trace of effects and returns or raises. *)
Definition M (A : Type) : Type := list effect * result A.

#[global] Instance M_ret : MRet M := λ A a, ([], Ok a).

#[global] Instance M_bind : MBind M := λ A B f m,
  match m with
  | (tr, Ok a) => let '(tr', r) := f a in (tr ++ tr', r)
  | (tr, Raise e) => (tr, Raise e)
  end.

Definition emit (e : effect) : M unit := ([e], Ok tt).

Definition raise {A : Type} (e : exn) : M A := ([], Raise e).

Definition info (msg : string) (args : list logarg) : M unit :=
  emit (Log INFO msg args).

Definition error (msg : string) (args : list logarg) : M unit :=
  emit (Log ERROR msg args).

(** [for x in l: body(x)] *)
Fixpoint for_each {A : Type} (l : list A) (body : A → M unit) : M unit :=
  match l with
  | [] => mret tt
  | x :: rest => body x ;; for_each rest body
  end.

Definition TypeError_not_iterable : exn :=
  {| exn_class := "TypeError";
     exn_msg := "'NoneType' object is not iterable";
     is_Exception := true |}.

(** What a [for] statement obtains from the value it is to iterate. *)
Definition iter (v : pyvalue) : M (list Inference) :=
  match v with
  | PyList l => mret l
  | PyNone => raise TypeError_not_iterable
  end.

(** ** The [Diagnostician] *)

Module Diagnostician.

Record t := mk {
  _pre_checks : list Inference;
  _training_problems : list Inference
}.

Definition init : t := {| _pre_checks := []; _training_problems := [] |}.

Definition get_pre_check_operators (self : t) : list InferenceOperator := [].

Definition get_observing_operators (self : t) : list InferenceOperator :=
  [CheckTrainingHangOperator].

Definition register_pre_check (self : t) (pre_checks : list Inference) : t :=
  {| _pre_checks := pre_checks; _training_problems := _training_problems self |}.

Definition register_problems (self : t) (problems : list Inference) : t :=
  {| _pre_checks := _pre_checks self; _training_problems := problems |}.

(** [InferenceChain(seeds, operators).infer()]: the chain is not part of
    the source under study, so what its evaluation yields, a list of
    inferences or an exception, is given from outside as [outcome]. *)
Definition infer (seeds : list Inference) (operators : list InferenceOperator)
    (outcome : result (list Inference)) : M (list Inference) :=
  ([ChainInfer seeds operators], outcome).

Definition check_training (self : t) (outcome : result (list Inference))
    : M (list Inference) :=
  infer (_pre_checks self) (get_pre_check_operators self) outcome.

Definition observe_training (self : t) (outcome : result (list Inference))
    : M (list Inference) :=
  infer (_training_problems self) (get_observing_operators self) outcome.

(** The body of [diagnose_failure] is [pass]: the call returns [None]. *)
Definition diagnose_failure (self : t) (inference : Inference) : pyvalue :=
  PyNone.

End Diagnostician.

(** ** The [DiagnosisManager] *)

Module DiagnosisManager.

Record t := mk {
  _is_observing_started : bool;
  _data_manager : DiagnosisDataManager.t;
  _diagnostician : Diagnostician.t
}.

(** [DiagnosisManager()] *)
Definition init : t :=
  {| _is_observing_started := false;
     _data_manager := DiagnosisDataManager.init_default;
     _diagnostician := Diagnostician.init |}.

Definition set_observing (self : t) (b : bool) : t :=
  {| _is_observing_started := b;
     _data_manager := _data_manager self;
     _diagnostician := _diagnostician self |}.

Definition set_diagnostician (self : t) (d : Diagnostician.t) : t :=
  {| _is_observing_started := _is_observing_started self;
     _data_manager := _data_manager self;
     _diagnostician := d |}.

Definition set_data_manager (self : t) (dm : DiagnosisDataManager.t) : t :=
  {| _is_observing_started := _is_observing_started self;
     _data_manager := dm;
     _diagnostician := _diagnostician self |}.

(** What one pass of the loop takes from outside: the figure returned by
    [get_data_size()] and the outcome of the chain evaluation. *)
Record tick := mkTick {
  size : Z;
  observed : result (list Inference)
}.

(** The body of the [while] loop after the test of the flag. *)
Definition iteration (self : t) (tk : tick) : M unit :=
  info "Current diagnosis data size: {}." [ArgSize (size tk)] ;;
  observed_problems ←
    Diagnostician.observe_training (_diagnostician self) (observed tk);
  for_each observed_problems (λ problem,
    info "Observe problem in diagnosing: {}" [ArgInference problem] ;;
    root_causes ←
      iter (Diagnostician.diagnose_failure (_diagnostician self) problem);
    for_each root_causes (λ root_cause,
      info "identify root cause: {}" [ArgInference root_cause])) ;;
  emit (Sleep MASTER_DIAGNOSIS_OBSERVING_INTERVAL_SECS).

Inductive control := Break | Continue.

(** One pass of the [while] loop: the test of the flag, then the body. *)
Definition loop_pass (self : t) (tk : tick) : M control :=
  if negb (_is_observing_started self)
  then info "Stop to diagnose failures for observing." [] ;; mret Break
  else iteration self tk ;; mret Continue.

(** How a run of the loop stands: it left through [break], it was ended
    by an exception, or it is still going round. *)
Inductive loop_end :=
| Stopped
| Crashed (e : exn)
| Looping.

(** The [while True] loop.  The manager is shared with the thread that
    calls [start_observing] and [stop_observing], so each pass comes with
    the manager as that pass finds it. *)
Fixpoint while_true (passes : list (t * tick)) : list effect * loop_end :=
  match passes with
  | [] => ([], Looping)
  | (self, tk) :: rest =>
      match loop_pass self tk with
      | (tr, Ok Break) => (tr, Stopped)
      | (tr, Ok Continue) =>
          let '(tr', e) := while_true rest in (tr ++ tr', e)
      | (tr, Raise e) => (tr, Crashed e)
      end
  end.

Definition _diagnose_failures (passes : list (t * tick))
    : list effect * loop_end :=
  let '(tr, e) := while_true passes in
  (Log INFO "Start to diagnose failures for observing." [] :: tr, e).

(** *** The manager and its threads

    The manager, the state of every background thread started so far and
    the trace of effects.  Calls of the manager's methods and passes of
    the background loops interleave; a method call and a loop pass are
    each taken as one step. *)

Inductive thread_state :=
| Alive
| Finished
| Died (e : exn).

Record world := mkWorld {
  self : t;
  threads : list thread_state;
  trace : list effect
}.

Definition start : world :=
  {| self := init; threads := []; trace := [] |}.

Definition set_self (w : world) (s : t) : world :=
  {| self := s; threads := threads w; trace := trace w |}.

Definition record (w : world) (tr : list effect) : world :=
  {| self := self w; threads := threads w; trace := trace w ++ tr |}.

Definition collect_diagnosis_data (w : world) (d : DiagnosisData)
    (now : datetime) : world :=
  set_self w
    (set_data_manager (self w)
       (DiagnosisDataManager.store_data (_data_manager (self w)) d now)).

Definition pre_check (w : world) : world :=
  let w := record w [Log INFO "Start Diagnosis Manager to pre-check training..." []] in
  let pre_checks := [] in
  set_self w
    (set_diagnostician (self w)
       (Diagnostician.register_pre_check (_diagnostician (self w)) pre_checks)).

(** [threading.Thread(target=self._diagnose_failures, ...)] followed by
    [thread.start()]: the new thread enters [_diagnose_failures].  The
    result carries the index of the thread. *)
Definition spawn (w : world) : world * nat :=
  ({| self := self w;
      threads := threads w ++ [Alive];
      trace := trace w ++
        [ThreadStart "failure_diagnosis" true;
         Log INFO "Start to diagnose failures for observing." []] |},
   length (threads w)).

(** [thread.is_alive()] *)
Definition is_alive (s : thread_state) : bool :=
  match s with
  | Alive => true
  | _ => false
  end.

(** [start_observing()]; [started] tells whether creating and starting
    the thread went through or raised.  The result is the exception that
    leaves the method, if any. *)
Definition start_observing (w : world) (started : result unit)
    : world * result unit :=
  let w := record w [Log INFO "Start Diagnosis Manager to observing training..." []] in
  let w := set_self w (set_observing (self w) true) in
  let problems := [mkInference TRAINING ISORNOT HANG] in
  let w :=
    set_self w
      (set_diagnostician (self w)
         (Diagnostician.register_problems (_diagnostician (self w)) problems)) in
  match started with
  | Ok _ =>
      let '(w, thread) := spawn w in
      if from_option is_alive false (threads w !! thread)
      then (record w [Log INFO "Diagnosis Manager is started" []], Ok tt)
      else (w, Ok tt)
  | Raise e =>
      if is_Exception e
      then (record w
              [Log ERROR "Failed to start the diagnosis manager thread. Error: {}"
                   [ArgExn e]],
            Ok tt)
      else (w, Raise e)
  end.

Definition stop_observing (w : world) : world :=
  let w := record w [Log INFO "Stop Diagnosis Manager to observing training." []] in
  set_self w (set_observing (self w) false).

(** One pass of the loop of thread [tid], if that thread is alive. *)
Definition thread_pass (w : world) (tid : nat) (tk : tick) : world :=
  match threads w !! tid with
  | Some Alive =>
      let '(tr, r) := loop_pass (self w) tk in
      let st := match r with
                | Ok Break => Finished
                | Ok Continue => Alive
                | Raise e => Died e
                end in
      {| self := self w; threads := <[tid := st]> (threads w);
         trace := trace w ++ tr |}
  | _ => w
  end.

(** The number of background loops that are running. *)
Definition running_loops (w : world) : nat :=
  length (filter (λ s, is_alive s = true) (threads w)).

End DiagnosisManager.

(** ** Sample inputs *)

(** A quiet spell longer than the window, then a burst: one event at
    time 0, the next 700 seconds later, then 100,000 more, one per
    microsecond. *)
Definition quiet_then_burst : list (DiagnosisData * datetime) :=
  (event_at "t" 0, 0)
  :: (event_at "t" (timedelta 700), timedelta 700)
  :: burst "t" (timedelta 700 + 1) (Z.to_nat 100000).

(** The problem [start_observing] registers. *)
Definition hang_problem : Inference := mkInference TRAINING ISORNOT HANG.

(** An exception out of a chain evaluation. *)
Definition chain_failure : exn :=
  {| exn_class := "ValueError"; exn_msg := "malformed payload";
     is_Exception := true |}.

(** What [Thread.start] raises when the thread cannot be started. *)
Definition cannot_start_thread : exn :=
  {| exn_class := "RuntimeError"; exn_msg := "can't start new thread";
     is_Exception := true |}.

(** ** Invariants of the store *)

(** Every deque of the store is as [store_data] makes them: bounded by
    [capacity], as created, or without a bound, as rebuilt. *)
Definition store_ok (self : DiagnosisDataManager.t) : Prop :=
  ∀ ty dq, DiagnosisDataManager.data self !! ty = Some dq →
    Deque.maxlen dq = None ∨
    Deque.maxlen dq = Some DiagnosisDataManager.capacity.

(** The timestamps of a sequence do not decrease. *)
Definition by_timestamp (l : list DiagnosisData) : Prop :=
  StronglySorted (λ a b, timestamp a <= timestamp b) l.

(** ** Runs of the manager *)

(** Every thread started so far takes one pass of its loop, in the order
    of their start; [tid] is the index of the thread that takes the
    first tick. *)
Fixpoint pass_from (w : DiagnosisManager.world) (tid : nat)
    (tks : list DiagnosisManager.tick) : DiagnosisManager.world :=
  match tks with
  | [] => w
  | tk :: rest => pass_from (DiagnosisManager.thread_pass w tid tk) (S tid) rest
  end.

Definition pass_each (w : DiagnosisManager.world)
    (tks : list DiagnosisManager.tick) : DiagnosisManager.world :=
  pass_from w 0 tks.

(** What can happen to a manager: a call of one of its methods by the
    master, or a pass of one of its background loops. *)
Inductive action :=
| DoCollect (d : DiagnosisData) (now : datetime)
| DoPreCheck
| DoStart (started : result unit)
| DoStop
| DoPass (tid : nat) (tk : DiagnosisManager.tick).

Definition step (w : DiagnosisManager.world) (a : action)
    : DiagnosisManager.world :=
  match a with
  | DoCollect d now => DiagnosisManager.collect_diagnosis_data w d now
  | DoPreCheck => DiagnosisManager.pre_check w
  | DoStart started => fst (DiagnosisManager.start_observing w started)
  | DoStop => DiagnosisManager.stop_observing w
  | DoPass tid tk => DiagnosisManager.thread_pass w tid tk
  end.

(** An interleaving of method calls and loop passes, from a new manager. *)
Definition run_manager (actions : list action) : DiagnosisManager.world :=
  fold_left step actions DiagnosisManager.start.

(** A chain evaluation of the trace is the hang check. *)
Definition is_hang_check (e : effect) : Prop :=
  match e with
  | ChainInfer seeds operators =>
      seeds = [mkInference TRAINING ISORNOT HANG] ∧
      operators = [CheckTrainingHangOperator]
  | _ => True
  end.

(** The calls of [start_observing] whose thread started. *)
Definition is_started (a : action) : bool :=
  match a with
  | DoStart (Ok _) => true
  | _ => false
  end.

(** The events handed to [collect_diagnosis_data] in a run, with the
    clock readings of the calls, in their order. *)
Definition collected (actions : list action) : list (DiagnosisData * datetime) :=
  omap (λ a, match a with
             | DoCollect d now => Some (d, now)
             | _ => None
             end) actions.

(** What holds of the manager at every point of every run. *)
Definition manager_inv (w : DiagnosisManager.world) : Prop :=
  Diagnostician._pre_checks
    (DiagnosisManager._diagnostician (DiagnosisManager.self w)) = [] ∧
  (DiagnosisManager.threads w ≠ [] →
   Diagnostician._training_problems
     (DiagnosisManager._diagnostician (DiagnosisManager.self w))
     = [mkInference TRAINING ISORNOT HANG]) ∧
  Forall is_hang_check (DiagnosisManager.trace w).

(** ** The master: [dlrover/python/master/master.py]

    The components the master is made of (node manager, task manager,
    metric collector, RPC server) are not part of the source under
    study.  A component is kept as the fact that it is there, which is
    what the truth tests of the source ask; its constructor and its
    methods are taken to return, what its queries answer is given from
    outside, and the calls made on it are recorded as effects. *)

Module Master.

(** Modelled from the spec: the constants of [DistributionStrategy] and
    [JobExitReason] that the source names, which are strings; the
    others are kept apart under their text.  The named reasons are not
    the empty string. *)
Inductive DistributionStrategy :=
| ALLREDUCE
| PARAMETER_SERVER
| OtherStrategy (tag : string).

#[global] Instance DistributionStrategy_eq_dec : EqDecision DistributionStrategy.
Proof. solve_decision. Defined.

Inductive JobExitReason :=
| SUCCEEDED
| UNKNOWN_ERROR
| OtherReason (text : string).

(** The truth value of what [_exit_reason] holds: [None] and the empty
    string are false. *)
Definition truthy (r : option JobExitReason) : bool :=
  match r with
  | None => false
  | Some (OtherReason "") => false
  | Some _ => true
  end.

(** The fields of [args] the source reads. *)
Record args := mkArgs {
  use_ddp : bool;
  distribution_strategy : DistributionStrategy;
  need_node_manager : bool;
  need_task_manager : bool
}.

Inductive level := INFO | WARNING | ERROR.

Inductive effect :=
| Log (lvl : level) (msg : string)
| LogExitReason (r : option JobExitReason)
| SetTaskTimeoutCallback
| AddPodEventCallback
| TaskManagerStart
| RendezvousServerStart
| NodeManagerStart
| NodeManagerStop
| ReportJobType (s : DistributionStrategy)
| ReportJobExitReason (r : option JobExitReason)
| MasterServerStart
| MasterServerStop
| Sleep (secs : Z).

#[global] Instance JobExitReason_eq_dec : EqDecision JobExitReason.
Proof. solve_decision. Defined.

#[global] Instance level_eq_dec : EqDecision level.
Proof. solve_decision. Defined.

#[global] Instance effect_eq_dec : EqDecision effect.
Proof. solve_decision. Defined.

(** The log line of [_create_rendezvous_server_if_needed] is written
    when the master is built; every branch returns [None]. *)
Definition _create_rendezvous_server_if_needed (a : args)
    : list effect * bool :=
  if use_ddp a then ([Log INFO "call DDPRendezvousServer, master_ip:{}"], false)
  else if bool_decide (distribution_strategy a ≠ ALLREDUCE) then ([], false)
  else ([Log INFO "call HorovodRendezvousServer, master_ip:{}"], false).

Definition _create_elastic_ps_service_if_needed (a : args) : bool :=
  if bool_decide (distribution_strategy a = PARAMETER_SERVER) then true
  else false.

Record t := mk {
  node_manager : bool;
  task_manager : bool;
  rendezvous_server : bool;
  job_metric_collector : bool;
  elastic_ps_service : bool;
  _args : args;
  _stop_requested : bool;
  _exit_code : Z;
  _exit_reason : option JobExitReason
}.

Definition _create_metric_collector_if_needed (a : args) : bool :=
  if negb (need_node_manager a) then false else true.

(** [Master(args)] *)
Definition init (a : args) : list effect * t :=
  let '(tr, rendezvous) := _create_rendezvous_server_if_needed a in
  (tr,
   {| node_manager := if need_node_manager a then true else false;
      task_manager := if need_task_manager a then true else false;
      rendezvous_server := rendezvous;
      job_metric_collector := _create_metric_collector_if_needed a;
      elastic_ps_service := _create_elastic_ps_service_if_needed a;
      _args := a;
      _stop_requested := false;
      _exit_code := 0;
      _exit_reason := None |}).

Definition set_exit (self : t) (stop_requested : bool) (code : Z)
    (r : option JobExitReason) : t :=
  {| node_manager := node_manager self;
     task_manager := task_manager self;
     rendezvous_server := rendezvous_server self;
     job_metric_collector := job_metric_collector self;
     elastic_ps_service := elastic_ps_service self;
     _args := _args self;
     _stop_requested := stop_requested;
     _exit_code := code;
     _exit_reason := r |}.

Definition _add_pod_event_callback (self : t) : list effect :=
  if task_manager self then [AddPodEventCallback] else [].

Definition prepare (self : t) : list effect :=
  (if task_manager self && node_manager self
   then [SetTaskTimeoutCallback] else []) ++
  (if node_manager self then _add_pod_event_callback self else []) ++
  (if task_manager self then [TaskManagerStart] else []) ++
  (if rendezvous_server self then [RendezvousServerStart] else []) ++
  (if node_manager self then [NodeManagerStart] else []) ++
  (if job_metric_collector self
   then [ReportJobType (distribution_strategy (_args self))] else []) ++
  [Log INFO "Starting master RPC server";
   MasterServerStart;
   Log INFO "Master RPC server started"].

(** [request_stop(success, reason, msg)] *)
Record request := mkRequest {
  success : bool;
  reason : option JobExitReason;
  msg : string
}.

Definition request_stop (self : t) (rq : request) : t * list effect :=
  if success rq
  then (set_exit self true 0 (reason rq), [Log INFO (msg rq)])
  else (set_exit self true 1 (reason rq), [Log ERROR (msg rq)]).

(** [stop()] *)
Definition stop (self : t) : t * list effect :=
  let self :=
    if (_exit_code self =? 0) && negb (truthy (_exit_reason self))
    then set_exit self (_stop_requested self) (_exit_code self) (Some SUCCEEDED)
    else self in
  (self,
   [LogExitReason (_exit_reason self)] ++
   (if job_metric_collector self
    then [ReportJobExitReason (_exit_reason self)] else []) ++
   [Log INFO "Stopping master";
    Log INFO "Stopping RPC server";
    MasterServerStop;
    Log INFO "RPC server stopped";
    Log INFO "Master stopped"]).

(** What one pass of the loop of [run] meets: the [request_stop] calls
    that came in from the RPC threads since the pass before, the answers
    of the node manager and of the task manager, should they be asked,
    and whether a [KeyboardInterrupt] cuts the sleep short. *)
Record pass := mkPass {
  requests : list request;
  all_workers_exited : bool;
  all_workers_failed : bool;
  finished : bool;
  all_critical_node_completed : bool;
  interrupted : bool
}.

Definition serve (self : t) (rqs : list request) : t * list effect :=
  fold_left (λ acc rq, let '(s, tr) := request_stop (fst acc) rq in
                       (s, snd acc ++ tr))
            rqs (self, []).

Inductive control := Break | Continue.

(** The body of the [while True] loop of [run], up to the sleep. *)
Definition body (self : t) (p : pass) : t * list effect * control :=
  if _stop_requested self then (self, [], Break)
  else if node_manager self && all_workers_exited p then
    if all_workers_failed p
    then (set_exit self (_stop_requested self) 1 (Some UNKNOWN_ERROR),
          [Log ERROR "All workers failed"], Break)
    else (self,
          (if task_manager self && negb (finished p)
           then [Log WARNING "All workers exited but there also are unfinished tasks"]
           else []),
          Break)
  else if task_manager self && finished p &&
          (negb (node_manager self) || all_critical_node_completed p)
  then (self, [Log INFO "All task completed"], Break)
  else (self, [Sleep 30], Continue).

(** How the loop was left. *)
Inductive way_out := Broke | Interrupted.

Fixpoint while_true (self : t) (passes : list pass)
    : t * list effect * option way_out :=
  match passes with
  | [] => (self, [], None)
  | p :: rest =>
      let '(self, tr0) := serve self (requests p) in
      match body self p with
      | (self, tr, Break) => (self, tr0 ++ tr, Some Broke)
      | (self, tr, Continue) =>
          if interrupted p
          then (self, tr0 ++ tr, Some Interrupted)
          else let '(self', tr', out) := while_true self rest in
               (self', tr0 ++ tr ++ tr', out)
      end
  end.

(** [run()]: the loop, the handler of [KeyboardInterrupt], the
    [finally] clause and the exit code returned; [None] for the code
    while the loop is still going round. *)
Definition run (self : t) (passes : list pass) : t * list effect * option Z :=
  match while_true self passes with
  | (self, tr, None) => (self, tr, None)
  | (self, tr, Some out) =>
      let handler :=
        match out with
        | Interrupted => [Log WARNING "Server stopping"]
        | Broke => []
        end in
      let finally_nm := if node_manager self then [NodeManagerStop] else [] in
      let '(self, tr_stop) := stop self in
      (self, tr ++ handler ++ finally_nm ++ tr_stop, Some (_exit_code self))
  end.

(** A pass in which nobody calls [request_stop] and no interrupt comes. *)
Definition quiet (p : pass) : Prop :=
  requests p = [] ∧ interrupted p = false.

(** The effects of the loop of [run]: log lines and sleeps. *)
Definition is_loop_effect (e : effect) : Prop :=
  match e with
  | Log _ _ | Sleep _ => True
  | _ => False
  end.

(** The components of two states of a master are the same. *)
Definition same_components (self self' : t) : Prop :=
  node_manager self' = node_manager self ∧
  task_manager self' = task_manager self ∧
  job_metric_collector self' = job_metric_collector self.

End Master.

(** ** Sample inputs for the master *)

(** A job on parameter servers with both managers. *)
Definition ps_job : Master.args :=
  {| Master.use_ddp := false;
     Master.distribution_strategy := Master.PARAMETER_SERVER;
     Master.need_node_manager := true;
     Master.need_task_manager := true |}.

(** A pass with no request and no interrupt in which the managers
    answer as given. *)
Definition answers (exited failed finished critical : bool) : Master.pass :=
  {| Master.requests := [];
     Master.all_workers_exited := exited;
     Master.all_workers_failed := failed;
     Master.finished := finished;
     Master.all_critical_node_completed := critical;
     Master.interrupted := false |}.

(** A pass in which nothing is over yet and the sleep is interrupted. *)
Definition interrupt : Master.pass :=
  {| Master.requests := [];
     Master.all_workers_exited := false;
     Master.all_workers_failed := false;
     Master.finished := false;
     Master.all_critical_node_completed := false;
     Master.interrupted := true |}.

(** A pass before which a failure is reported through [request_stop]. *)
Definition failure_requested : Master.pass :=
  {| Master.requests :=
       [{| Master.success := false;
           Master.reason := Some (Master.OtherReason "CodeError");
           Master.msg := "worker error" |}];
     Master.all_workers_exited := false;
     Master.all_workers_failed := false;
     Master.finished := true;
     Master.all_critical_node_completed := true;
     Master.interrupted := false |}.

(** A master without managers. *)
Definition bare_job : Master.args :=
  {| Master.use_ddp := true;
     Master.distribution_strategy := Master.ALLREDUCE;
     Master.need_node_manager := false;
     Master.need_task_manager := false |}.

(** * Properties *)

(** ** Facts about the eviction scan *)

Section Scan.

Import Deque DiagnosisDataManager.

Variable W : Z.
Variable now : datetime.

Local Notation "'expired' e" := (has_expired (timestamp e) W now)
  (at level 10, e at level 9, only parsing).


Lemma has_expired_false (t : Z) :
  has_expired t W now = false ↔ now <= t + timedelta W.
Proof.
  unfold has_expired, fromtimestamp. rewrite Z.ltb_ge. lia.
Qed.

Lemma scan_expired_acc (l : list DiagnosisData) (n : nat) :
  scan_expired W now l n = (n + scan_expired W now l 0)%nat.
Proof.
  revert n. induction l as [|d l IH]; intros n; simpl.
  - lia.
  - destruct (expired d); [|lia].
    rewrite (IH (n + 1)%nat), (IH 1%nat). lia.
Qed.

Lemma scan_expired_cons (d : DiagnosisData) (l : list DiagnosisData) :
  scan_expired W now (d :: l) 0 =
    if expired d then S (scan_expired W now l 0) else 0%nat.
Proof.
  simpl. destruct (expired d); [|done].
  by rewrite scan_expired_acc.
Qed.

Lemma scan_expired_le (l : list DiagnosisData) :
  (scan_expired W now l 0 ≤ length l)%nat.
Proof.
  induction l as [|d l IH]; [done|].
  rewrite scan_expired_cons. destruct (expired d); simpl; lia.
Qed.


(** The scan stopped on an event that has not expired, or at the end. *)
Lemma scan_expired_stop (l : list DiagnosisData) (e : DiagnosisData) :
  head (drop (scan_expired W now l 0) l) = Some e → expired e = false.
Proof.
  induction l as [|d l IH]; [done|].
  rewrite scan_expired_cons. destruct (expired d) eqn:E; simpl.
  - done.
  - intros [= <-]. done.
Qed.

Lemma scan_expired_head_fresh (d : DiagnosisData) (l : list DiagnosisData) :
  expired d = false → scan_expired W now (d :: l) 0 = 0%nat.
Proof. intros E. by rewrite scan_expired_cons, E. Qed.


End Scan.

(** ** Facts about [store_data] *)

Section Store.

Import Deque DiagnosisDataManager.

Lemma islice_to_end (dq : deque) (n : nat) :
  islice dq n (len dq) = drop n (items dq).
Proof.
  unfold islice, len. apply take_ge. rewrite length_drop. lia.
Qed.

Lemma clean_period (self : t) (ty : string) (now : datetime) :
  expire_time_period (_clean_diagnosis_data self ty now) =
    expire_time_period self.
Proof.
  unfold _clean_diagnosis_data. repeat case_match; done.
Qed.

Lemma clean_lookup (self : t) (ty : string) (now : datetime) (dq : deque) :
  data self !! ty = Some dq →
  data (_clean_diagnosis_data self ty now) !! ty =
    Some (let n := scan_expired (expire_time_period self) now (items dq) 0 in
          if (0 <? n)%nat then of_iterable (drop n (items dq)) else dq).
Proof.
  intros E. unfold _clean_diagnosis_data. rewrite E. simpl.
  case_match; [|done].
  unfold data, set_data; simpl. rewrite lookup_insert_eq.
  by rewrite islice_to_end.
Qed.

Lemma clean_lookup_ne (self : t) (ty ty' : string) (now : datetime) :
  ty' ≠ ty →
  data (_clean_diagnosis_data self ty now) !! ty' = data self !! ty'.
Proof.
  intros Hne. unfold _clean_diagnosis_data.
  repeat case_match; try done.
  unfold data, set_data; simpl. by rewrite lookup_insert_ne.
Qed.

(** The store between the append and the cleaning. *)
Lemma store_data_unfold (self : t) (d : DiagnosisData) (now : datetime) :
  store_data self d now =
    _clean_diagnosis_data
      (set_data self (<[data_type d := appended self d]> (data self)))
      (data_type d) now.
Proof.
  unfold store_data, appended. f_equal.
  destruct (data self !! data_type d) as [dq|] eqn:E; simpl.
  - by rewrite E.
  - unfold data at 1, set_data at 2; simpl. rewrite lookup_insert_eq.
    unfold set_data, data; simpl. by rewrite insert_insert_eq.
Qed.

Lemma store_data_period (self : t) (d : DiagnosisData) (now : datetime) :
  expire_time_period (store_data self d now) = expire_time_period self.
Proof. by rewrite store_data_unfold, clean_period. Qed.

Lemma store_data_lookup (self : t) (d : DiagnosisData) (now : datetime) :
  data (store_data self d now) !! data_type d =
    Some (let dq := appended self d in
          let n := scan_expired (expire_time_period self) now (items dq) 0 in
          if (0 <? n)%nat then of_iterable (drop n (items dq)) else dq).
Proof.
  rewrite store_data_unfold.
  erewrite clean_lookup; [done|].
  unfold data, set_data; simpl. apply lookup_insert_eq.
Qed.

Lemma store_data_lookup_ne (self : t) (d : DiagnosisData) (now : datetime)
    (ty : string) :
  ty ≠ data_type d →
  data (store_data self d now) !! ty = data self !! ty.
Proof.
  intros Hne. rewrite store_data_unfold, clean_lookup_ne by done.
  unfold data, set_data; simpl. by rewrite lookup_insert_ne.
Qed.

Lemma get_data_store_data (self : t) (d : DiagnosisData) (now : datetime) :
  get_data (store_data self d now) (data_type d) =
    drop (scan_expired (expire_time_period self) now (items (appended self d)) 0)
         (items (appended self d)).
Proof.
  unfold get_data. rewrite store_data_lookup. simpl.
  destruct (scan_expired _ _ _ _) as [|n]; simpl; done.
Qed.

Lemma get_data_store_data_ne (self : t) (d : DiagnosisData) (now : datetime)
    (ty : string) :
  ty ≠ data_type d →
  get_data (store_data self d now) ty = get_data self ty.
Proof.
  intros Hne. unfold get_data. by rewrite store_data_lookup_ne.
Qed.


Lemma append_maxlen (dq : deque) (x : DiagnosisData) :
  maxlen (append dq x) = maxlen dq.
Proof. unfold append. repeat case_match; done. Qed.

End Store.

(** ** Runs of [store_data] on one type *)

Section Runs.

Import Deque DiagnosisDataManager.

Lemma store_all_cons (self : t) (c : DiagnosisData * datetime)
    (calls : list (DiagnosisData * datetime)) :
  store_all self (c :: calls) =
    store_all (store_data self (fst c) (snd c)) calls.
Proof. done. Qed.

Lemma store_all_period (calls : list (DiagnosisData * datetime)) (self : t) :
  expire_time_period (store_all self calls) = expire_time_period self.
Proof.
  revert self. induction calls as [|c calls IH]; intros self; [done|].
  by rewrite store_all_cons, IH, store_data_period.
Qed.

Lemma store_all_lookup_ne (calls : list (DiagnosisData * datetime))
    (self : t) (ty : string) :
  Forall (λ c, data_type (fst c) ≠ ty) calls →
  data (store_all self calls) !! ty = data self !! ty.
Proof.
  revert self. induction calls as [|c calls IH]; intros self Hall; [done|].
  inversion Hall as [|? ? Hc Hrest]; subst.
  rewrite store_all_cons, IH by done.
  by apply store_data_lookup_ne.
Qed.

(** A deque rebuilt by the cleaning has no bound: as long as its oldest
    event does not expire, every stored event is kept. *)
Lemma store_all_unbounded (calls : list (DiagnosisData * datetime))
    (self : t) (ty : string) (h : DiagnosisData) (l : list DiagnosisData) :
  data self !! ty = Some (of_iterable (h :: l)) →
  Forall (λ c, data_type (fst c) = ty ∧
               has_expired (timestamp h) (expire_time_period self) (snd c)
                 = false) calls →
  data (store_all self calls) !! ty =
    Some (of_iterable (h :: l ++ map fst calls)).
Proof.
  revert self l. induction calls as [|[d now] calls IH]; intros self l E Hall.
  - simpl. by rewrite app_nil_r.
  - inversion Hall as [|? ? [Hty Hfresh] Hrest]; subst.
    rewrite store_all_cons. simpl in *.
    rewrite (IH _ (l ++ [d])).
    + by rewrite <- app_assoc.
    + rewrite store_data_lookup. unfold appended. rewrite E; simpl.
      by rewrite Hfresh.
    + by rewrite store_data_period.
Qed.

Lemma keep_last_all {A : Type} (n : nat) (l : list A) :
  (length l ≤ n)%nat → keep_last n l = l.
Proof.
  intros Hle. unfold keep_last.
  replace (length l - n)%nat with 0%nat by lia. done.
Qed.

Lemma keep_last_length {A : Type} (n : nat) (l : list A) :
  length (keep_last n l) = Nat.min n (length l).
Proof. unfold keep_last. rewrite length_drop. lia. Qed.

Lemma keep_last_full_cons {A : Type} (n : nat) (x y : A) (l l' : list A) :
  length (x :: l) = n →
  keep_last n (x :: l ++ y :: l') = keep_last n (l ++ y :: l').
Proof.
  intros Hn. unfold keep_last. simpl. rewrite !length_app. simpl in *.
  replace (S (length l + S (length l')) - n)%nat
    with (S (length l + S (length l') - n)) by lia.
  done.
Qed.

(** A deque created by [store_data] keeps its bound while nothing
    expires: it holds the [capacity] most recent events. *)
Lemma store_all_bounded (calls : list (DiagnosisData * datetime))
    (self : t) (ty : string) (l : list DiagnosisData) (lo : Z) :
  data self !! ty = Some {| items := l; maxlen := Some capacity |} →
  Z.of_nat (length l) <= capacity →
  Forall (λ e, lo <= timestamp e) l →
  Forall (λ c, data_type (fst c) = ty ∧ lo <= timestamp (fst c) ∧
               snd c <= lo + timedelta (expire_time_period self)) calls →
  data (store_all self calls) !! ty =
    Some {| items := keep_last (Z.to_nat capacity) (l ++ map fst calls);
            maxlen := Some capacity |}.
Proof.
  revert self l. induction calls as [|[d now] calls IH];
    intros self l E Hlen Hl Hall.
  - simpl. rewrite app_nil_r, keep_last_all by lia. done.
  - inversion Hall as [|? ? (Hty & Hlo & Hnow) Hrest]; subst.
    rewrite store_all_cons. simpl in *.
    set (l1 := items (appended self d)).
    assert (Hl1 : Forall (λ e, lo <= timestamp e) l1).
    { unfold l1, appended, append. rewrite E; simpl.
      assert (Forall (λ e, lo <= timestamp e) (l ++ [d]))
        by (apply Forall_app; split; [done|by repeat constructor]).
      case_match; simpl; [|done].
      by apply Forall_tail. }
    assert (Hscan : scan_expired (expire_time_period self) now l1 0 = 0%nat).
    { destruct l1 as [|e l1']; [done|].
      apply scan_expired_head_fresh. apply has_expired_false.
      inversion Hl1; subst. lia. }
    assert (Hstep : data (store_data self d now) !! data_type d =
              Some {| items := l1; maxlen := Some capacity |}).
    { rewrite store_data_lookup; simpl. fold l1. rewrite Hscan; simpl.
      f_equal. unfold l1, appended, append. rewrite E; simpl.
      by case_match. }
    assert (Hcases : (l1 = l ++ [d] ∧ Z.of_nat (length l) < capacity) ∨
              (∃ x l', l = x :: l' ∧ l1 = l' ++ [d] ∧
                Z.of_nat (length l) = capacity)).
    { unfold l1, appended, append. rewrite E; simpl.
      rewrite length_app; simpl.
      destruct (Z.ltb_spec capacity (Z.of_nat (length l + 1))); simpl.
      - right. destruct l as [|x l'].
        + unfold capacity in *. simpl in *. lia.
        + exists x, l'. simpl in *. repeat split; lia.
      - left. split; [done|lia]. }
    rewrite (IH _ l1); try done.
    + f_equal. f_equal.
      destruct Hcases as [[-> _]|(x & l' & -> & -> & Hfull)].
      * by rewrite <- app_assoc.
      * rewrite <- app_assoc. simpl.
        rewrite keep_last_full_cons; [done|simpl in *; lia].
    + destruct Hcases as [[-> ?]|(x & l' & -> & -> & Hfull)];
        rewrite length_app; simpl in *; lia.
    + by rewrite store_data_period.
Qed.

End Runs.


(** ** The store: eviction, retention and capacity *)

Section StoreProperties.

Import Deque DiagnosisDataManager.

Lemma StronglySorted_drop {A : Type} (R : A → A → Prop) (l : list A) (n : nat) :
  StronglySorted R l → StronglySorted R (drop n l).
Proof.
  revert l. induction n as [|n IH]; intros l Hl; [done|].
  destruct l as [|x l]; [done|]. simpl.
  apply IH. by inversion Hl.
Qed.



(** The retention bound where it holds: on a type that is new to the
    store, a run of more than [capacity] stores during which nothing
    expires leaves exactly the [capacity] most recent events, in the order
    of their insertion. *)
Lemma bounded_retention (self : t) (ty : string)
    (calls : list (DiagnosisData * datetime)) (lo : Z) :
  data self !! ty = None →
  Forall (λ c, data_type (fst c) = ty ∧ lo <= timestamp (fst c) ∧
               snd c <= lo + timedelta (expire_time_period self)) calls →
  capacity < Z.of_nat (length calls) →
  get_data (store_all self calls) ty
    = keep_last (Z.to_nat capacity) (map fst calls) ∧
  Z.of_nat (length (get_data (store_all self calls) ty)) = capacity.
Proof.
  intros E Hall Hlen.
  destruct calls as [|[d now] calls]; [simpl in Hlen; unfold capacity in *; lia|].
  inversion Hall as [|? ? (Hty & Hlo & Hnow) Hrest]; subst.
  rewrite store_all_cons. simpl in *.
  assert (Happ : items (appended self d) = [d])
    by (unfold appended; rewrite E; done).
  assert (Hstep : data (store_data self d now) !! data_type d =
            Some {| items := [d]; maxlen := Some capacity |}).
  { rewrite store_data_lookup; simpl. rewrite Happ.
    rewrite scan_expired_head_fresh by (apply has_expired_false; lia).
    simpl. unfold appended. by rewrite E. }
  assert (Hget : get_data (store_all (store_data self d now) calls) (data_type d)
            = keep_last (Z.to_nat capacity) (d :: map fst calls)).
  { unfold get_data.
    rewrite (store_all_bounded calls _ (data_type d) [d] lo Hstep); [done|..].
    - unfold capacity; simpl; lia.
    - by repeat constructor.
    - by rewrite store_data_period. }
  split; [done|].
  rewrite Hget, keep_last_length, length_cons, length_map.
  unfold capacity in *. lia.
Qed.

End StoreProperties.

(** ** The store on concrete runs *)

Section StoreRuns.

Import Deque DiagnosisDataManager.

Lemma burst_length (ty : string) (start : Z) (n : nat) :
  length (burst ty start n) = n.
Proof. unfold burst. by rewrite length_map, length_seq. Qed.

Lemma burst_Forall (ty : string) (start : Z) (n : nat)
    (P : DiagnosisData * datetime → Prop) :
  (∀ i, (i < n)%nat →
        P (event_at ty (start + Z.of_nat i), start + Z.of_nat i)) →
  Forall P (burst ty start n).
Proof.
  intros HP. unfold burst. apply Forall_map, Forall_forall.
  intros i Hi. apply elem_of_seq in Hi. apply HP. lia.
Qed.

Lemma quiet_then_burst_rebuilt :
  data (store_data (store_data init_default (event_at "t" 0) 0)
                   (event_at "t" (timedelta 700)) (timedelta 700)) !! "t"
    = Some (of_iterable [event_at "t" (timedelta 700)]).
Proof. vm_compute. reflexivity. Qed.

(** C1 on the run [quiet_then_burst]: the second store finds the first
    event stale and rebuilds the deque without a bound, and the 100,000
    stores that follow, none of them stale, leave 100,001 entries under
    the type, one more than the capacity. *)
Theorem capacity_exceeded_after_eviction :
  let kept := get_data (store_all init_default quiet_then_burst) "t" in
  Z.of_nat (length kept) = 100001 ∧
  capacity < Z.of_nat (length kept) ∧
  (maxlen <$> data (store_all init_default quiet_then_burst) !! "t") = Some None.
Proof.
  pose proof (burst_length "t" (timedelta 700 + 1) (Z.to_nat 100000)) as Hlen.
  assert (E : data (store_all init_default quiet_then_burst) !! "t" =
            Some (of_iterable
                    (event_at "t" (timedelta 700)
                     :: [] ++ map fst (burst "t" (timedelta 700 + 1)
                                         (Z.to_nat 100000))))).
  { unfold quiet_then_burst. rewrite !store_all_cons.
    apply store_all_unbounded; [apply quiet_then_burst_rebuilt|].
    apply burst_Forall. intros i Hi. split; [done|].
    rewrite !store_data_period. apply has_expired_false.
    unfold init_default, init, event_at, timedelta; simpl timestamp.
    simpl expire_time_period. simpl snd. lia. }
  revert E Hlen.
  generalize (burst "t" (timedelta 700 + 1) (Z.to_nat 100000)).
  intros recent E Hlen.
  unfold get_data. rewrite E. unfold of_iterable.
  cbn [items maxlen fmap option_fmap option_map].
  rewrite length_cons, app_nil_l, length_map, Hlen.
  unfold capacity. split; [lia|]. split; [lia|reflexivity].
Qed.

(** The same burst on a new store stays within the bound: 100,001 stores
    leave the 100,000 most recent events. *)
Example burst_on_new_store_bounded :
  let calls := burst "t" 0 (Z.to_nat 100001) in
  get_data (store_all init_default calls) "t"
    = keep_last (Z.to_nat capacity) (map fst calls) ∧
  Z.of_nat (length (get_data (store_all init_default calls) "t")) = capacity.
Proof.
  apply (bounded_retention init_default "t" _ 0).
  - done.
  - apply burst_Forall. intros i Hi. split; [done|].
    unfold init_default, init, timedelta. cbn [fst snd timestamp event_at
      DiagnosisDataManager.expire_time_period]. lia.
  - rewrite burst_length. unfold capacity. lia.
Qed.




End StoreRuns.

(** ** The store with object identity *)

Section HeapFacts.

Import Deque Heap.

Lemma alloc_fresh (st : state) (o : obj) : heap st !! (alloc st o).1 = None.
Proof. simpl. apply not_elem_of_dom, is_fresh. Qed.

Lemma deque_at_insert_ne (h : gmap loc obj) (p q : loc) (o : obj) :
  q ≠ p → deque_at (<[p := o]> h) q = deque_at h q.
Proof. intros Hne. unfold deque_at. by rewrite lookup_insert_ne. Qed.

Lemma deque_at_insert_eq (h : gmap loc obj) (p : loc) (dq : deque) :
  deque_at (<[p := ODeque dq]> h) p = Some dq.
Proof. unfold deque_at. by rewrite lookup_insert_eq. Qed.

Lemma deque_at_allocated (h : gmap loc obj) (q : loc) :
  is_Some (deque_at h q) → is_Some (h !! q).
Proof. unfold deque_at. destruct (h !! q); [eauto|by intros [? ?]]. Qed.

Lemma deque_at_not_list (h : gmap loc obj) (q : loc) (l : list DiagnosisData) :
  h !! q = Some (OList l) → deque_at h q = None.
Proof. unfold deque_at. by intros ->. Qed.

Lemma contents_lookup (st : state) (ty : string) :
  contents st !! ty = data st !! ty ≫= deque_at (heap st).
Proof. apply lookup_omap. Qed.

(** An address the dictionary does not mention may hold anything. *)
Lemma contents_frame (st : state) (p : loc) (o : obj) :
  (∀ ty q, data st !! ty = Some q → q ≠ p) →
  contents (set_heap st (<[p := o]> (heap st))) = contents st.
Proof.
  intros Hfree. apply map_eq. intros ty. rewrite !contents_lookup. simpl.
  destruct (data st !! ty) as [q|] eqn:E; [simpl|done].
  apply deque_at_insert_ne. by eapply Hfree.
Qed.

Lemma wf_frame (st : state) (p : loc) (o : obj) :
  wf st →
  (∀ ty q, data st !! ty = Some q → q ≠ p) →
  wf (set_heap st (<[p := o]> (heap st))).
Proof.
  intros [Hdq Hinj] Hfree. split; simpl.
  - intros ty q E. rewrite deque_at_insert_ne by (by eapply Hfree). eauto.
  - exact Hinj.
Qed.

(** No entry of the dictionary is an address still free, or the address
    of a list. *)
Lemma wf_not_free (st : state) (p : loc) :
  wf st → heap st !! p = None → ∀ ty q, data st !! ty = Some q → q ≠ p.
Proof.
  intros [Hdq _] Hp ty q E ->.
  apply Hdq, deque_at_allocated in E. rewrite Hp in E. by destruct E.
Qed.

Lemma wf_not_list (st : state) (p : loc) (l : list DiagnosisData) :
  wf st → heap st !! p = Some (OList l) →
  ∀ ty q, data st !! ty = Some q → q ≠ p.
Proof.
  intros [Hdq _] Hp ty q E ->.
  apply Hdq in E. rewrite (deque_at_not_list _ _ _ Hp) in E. by destruct E.
Qed.

Lemma wf_init (W : Z) : wf (init W).
Proof. split; intros *; simpl; by rewrite lookup_empty. Qed.

(** Binding a type to a newly allocated deque. *)
Lemma alloc_bind_spec (st : state) (ty : string) (dq : deque) :
  wf st →
  let st' := bind (alloc st (ODeque dq)).2 ty (alloc st (ODeque dq)).1 in
  wf st' ∧
  contents st' = <[ty := dq]> (contents st) ∧
  expire_time_period st' = expire_time_period st ∧
  data st' !! ty = Some (alloc st (ODeque dq)).1 ∧
  deque_at (heap st') (alloc st (ODeque dq)).1 = Some dq.
Proof.
  intros Hwf. pose proof (alloc_fresh st (ODeque dq)) as Hfresh.
  pose proof (wf_not_free st _ Hwf Hfresh) as Hfree.
  set (p := (alloc st (ODeque dq)).1) in *. simpl.
  destruct Hwf as [Hdq Hinj].
  repeat split; simpl.
  - intros ty' q. destruct (decide (ty' = ty)) as [->|Hne].
    + rewrite lookup_insert_eq. intros [= <-]. fold p.
      rewrite deque_at_insert_eq. eauto.
    + rewrite lookup_insert_ne by done. intros E. fold p.
      rewrite deque_at_insert_ne by (by eapply Hfree). eauto.
  - intros ty1 ty2 q.
    destruct (decide (ty1 = ty)) as [->|Hne1], (decide (ty2 = ty)) as [->|Hne2];
      rewrite ?lookup_insert_eq, ?lookup_insert_ne by done; try done.
    + intros [= <-] E. by apply Hfree in E.
    + intros E [= <-]. by apply Hfree in E.
    + apply Hinj.
  - apply map_eq. intros ty'. rewrite contents_lookup. simpl. fold p.
    destruct (decide (ty' = ty)) as [->|Hne].
    + rewrite !lookup_insert_eq. simpl. apply deque_at_insert_eq.
    + rewrite !lookup_insert_ne by done. rewrite contents_lookup.
      destruct (data st !! ty') as [q|] eqn:E; [simpl|done].
      apply deque_at_insert_ne. by eapply Hfree.
  - apply lookup_insert_eq.
  - fold p. apply deque_at_insert_eq.
Qed.

(** Changing in place the deque a type is bound to. *)
Lemma update_deque_spec (st : state) (ty : string) (p : loc) (dq : deque) :
  wf st →
  data st !! ty = Some p →
  let st' := set_heap st (<[p := ODeque dq]> (heap st)) in
  wf st' ∧ contents st' = <[ty := dq]> (contents st).
Proof.
  intros [Hdq Hinj] E. split; [split|]; simpl.
  - intros ty' q E'. destruct (decide (q = p)) as [->|Hne].
    + rewrite deque_at_insert_eq. eauto.
    + rewrite deque_at_insert_ne by done. eauto.
  - exact Hinj.
  - apply map_eq. intros ty'. rewrite contents_lookup. simpl.
    destruct (decide (ty' = ty)) as [->|Hne].
    + rewrite E, lookup_insert_eq. simpl. apply deque_at_insert_eq.
    + rewrite lookup_insert_ne, contents_lookup by done.
      destruct (data st !! ty') as [q|] eqn:E'; [simpl|done].
      apply deque_at_insert_ne. intros ->. by specialize (Hinj _ _ _ E E').
Qed.

End HeapFacts.

(** ** The two stores agree *)

Section Refinement.

Import Deque Heap.

Lemma abs_eq (st : state) (self : DiagnosisDataManager.t) :
  contents st = DiagnosisDataManager.data self →
  expire_time_period st = DiagnosisDataManager.expire_time_period self →
  abs st = self.
Proof. destruct self. unfold abs. simpl. by intros -> ->. Qed.

Lemma clean_refines (st : state) (ty : string) (now : datetime) :
  wf st →
  wf (_clean_diagnosis_data st ty now) ∧
  abs (_clean_diagnosis_data st ty now)
    = DiagnosisDataManager._clean_diagnosis_data (abs st) ty now.
Proof.
  intros Hwf.
  unfold _clean_diagnosis_data, DiagnosisDataManager._clean_diagnosis_data.
  unfold DiagnosisDataManager.data at 1. simpl. rewrite contents_lookup.
  destruct (data st !! ty) as [p|] eqn:E; simpl; [|done].
  destruct (deque_at (heap st) p) as [dq|] eqn:Edq; simpl; [|done].
  case_match; [|done].
  destruct (alloc_bind_spec st ty
              (of_iterable (islice dq
                 (DiagnosisDataManager.scan_expired (expire_time_period st)
                    now (items dq) 0) (len dq))) Hwf)
    as (Hwf' & Hc & Hp & _).
  split; [exact Hwf'|].
  apply abs_eq; [exact Hc|exact Hp].
Qed.

Lemma ensure_deque_spec (st : state) (ty : string) :
  wf st →
  let dq := default (new DiagnosisDataManager.capacity) (contents st !! ty) in
  wf (ensure_deque st ty) ∧
  expire_time_period (ensure_deque st ty) = expire_time_period st ∧
  contents (ensure_deque st ty) = <[ty := dq]> (contents st) ∧
  ∃ p, data (ensure_deque st ty) !! ty = Some p ∧
       deque_at (heap (ensure_deque st ty)) p = Some dq.
Proof.
  intros Hwf. unfold ensure_deque. rewrite contents_lookup.
  destruct (data st !! ty) as [p|] eqn:E.
  - destruct (proj1 Hwf _ _ E) as [dq Edq]. simpl. rewrite Edq. simpl.
    split; [done|]. split; [done|]. split.
    + symmetry. apply insert_id. by rewrite contents_lookup, E.
    + by exists p.
  - destruct (alloc_bind_spec st ty (new DiagnosisDataManager.capacity) Hwf)
      as (Hwf1 & Hc1 & Hp1 & Hb1 & Hd1).
    simpl. split; [exact Hwf1|]. split; [exact Hp1|]. split; [exact Hc1|].
    eexists. split; [exact Hb1|exact Hd1].
Qed.

Lemma append_data_spec (st : state) (ty : string) (p : loc) (dq : deque)
    (d : DiagnosisData) :
  wf st →
  data st !! ty = Some p →
  deque_at (heap st) p = Some dq →
  wf (append_data st ty d) ∧
  expire_time_period (append_data st ty d) = expire_time_period st ∧
  contents (append_data st ty d) = <[ty := append dq d]> (contents st).
Proof.
  intros Hwf E Edq. unfold append_data. rewrite E, Edq.
  destruct (update_deque_spec st ty p (append dq d) Hwf E) as [Hwf' Hc].
  split; [exact Hwf'|]. split; [done|exact Hc].
Qed.

Lemma append_refines (st : state) (d : DiagnosisData) :
  wf st →
  let st2 := append_data (ensure_deque st (data_type d)) (data_type d) d in
  wf st2 ∧
  abs st2 = DiagnosisDataManager.set_data (abs st)
              (<[data_type d := appended (abs st) d]>
                 (DiagnosisDataManager.data (abs st))).
Proof.
  intros Hwf. cbv zeta.
  destruct (ensure_deque_spec st (data_type d) Hwf)
    as (Hwf1 & Hp1 & Hc1 & p & Hb1 & Hd1).
  destruct (append_data_spec _ _ _ _ d Hwf1 Hb1 Hd1) as (Hwf2 & Hp2 & Hc2).
  split; [exact Hwf2|].
  apply abs_eq.
  - rewrite Hc2, Hc1. unfold DiagnosisDataManager.set_data, appended.
    cbn [DiagnosisDataManager.data DiagnosisDataManager._diagnosis_data abs].
    apply insert_insert_eq.
  - by rewrite Hp2, Hp1.
Qed.

(** [store_data] over the heap does to the contents of the store what
    [store_data] over values does. *)
Theorem store_data_refines (st : state) (d : DiagnosisData) (now : datetime) :
  wf st →
  wf (store_data st d now) ∧
  abs (store_data st d now) = DiagnosisDataManager.store_data (abs st) d now.
Proof.
  intros Hwf. rewrite store_data_unfold. unfold store_data.
  destruct (append_refines st d Hwf) as [Hwf2 Habs2].
  destruct (clean_refines _ (data_type d) now Hwf2) as [Hwf3 Habs3].
  split; [exact Hwf3|]. by rewrite Habs3, Habs2.
Qed.

Lemma store_all_refines (calls : list (DiagnosisData * datetime)) (st : state) :
  wf st →
  wf (store_all st calls) ∧
  abs (store_all st calls) = DiagnosisDataManager.store_all (abs st) calls.
Proof.
  revert st. induction calls as [|c calls IH]; intros st Hwf; [done|].
  destruct (store_data_refines st (fst c) (snd c) Hwf) as [Hwf' Habs].
  destruct (IH _ Hwf') as [Hwf'' Habs'']. simpl.
  split; [exact Hwf''|]. by rewrite Habs'', Habs.
Qed.

(** [get_data] in a well-formed state: it does not fail, its result is a
    new list with the items the store holds, and it changes nothing
    else. *)
Lemma get_data_spec (st : state) (ty : string) :
  wf st →
  ∃ p, get_data st ty = Some (p, set_heap st
         (<[p := OList (DiagnosisDataManager.get_data (abs st) ty)]> (heap st))) ∧
       heap st !! p = None.
Proof.
  intros Hwf. unfold get_data, DiagnosisDataManager.get_data.
  unfold DiagnosisDataManager.data. simpl. rewrite contents_lookup.
  destruct (data st !! ty) as [q|] eqn:E; simpl.
  - destruct (proj1 Hwf _ _ E) as [dq Edq]. rewrite Edq.
    eexists; split; [reflexivity|]. apply (alloc_fresh st (OList (items dq))).
  - eexists; split; [reflexivity|]. apply (alloc_fresh st (OList [])).
Qed.

Lemma mutate_list_spec (st : state) (p : loc)
    (f : list DiagnosisData → list DiagnosisData) :
  wf st →
  wf (mutate_list st p f) ∧
  data (mutate_list st p f) = data st ∧
  contents (mutate_list st p f) = contents st.
Proof.
  intros Hwf. unfold mutate_list.
  destruct (heap st !! p) as [[dq|l]|] eqn:E; try done.
  pose proof (wf_not_list st p l Hwf E) as Hfree.
  split; [by apply wf_frame|]. split; [done|]. by apply contents_frame.
Qed.

End Refinement.

(** ** Reading the store *)

Section Reading.

Import Deque Heap.

Lemma clean_data_ne (st : state) (ty ty' : string) (now : datetime) :
  ty' ≠ ty →
  data (_clean_diagnosis_data st ty now) !! ty' = data st !! ty'.
Proof.
  intros Hne. unfold _clean_diagnosis_data, alloc, bind.
  repeat case_match; simplify_eq; simpl;
    rewrite ?lookup_insert_ne by done; done.
Qed.

Lemma store_data_data_ne (st : state) (d : DiagnosisData) (now : datetime)
    (ty : string) :
  ty ≠ data_type d →
  data (store_data st d now) !! ty = data st !! ty.
Proof.
  intros Hne. unfold store_data. rewrite clean_data_ne by done.
  unfold append_data, ensure_deque, alloc, bind.
  repeat case_match; simplify_eq; simpl;
    rewrite ?lookup_insert_ne by done; done.
Qed.

Lemma store_all_data_ne (calls : list (DiagnosisData * datetime)) (st : state)
    (ty : string) :
  Forall (λ c, data_type (fst c) ≠ ty) calls →
  data (store_all st calls) !! ty = data st !! ty.
Proof.
  revert st. induction calls as [|c calls IH]; intros st Hall; [done|].
  inversion Hall as [|? ? Hc Hrest]; subst. simpl.
  rewrite IH by done. by apply store_data_data_ne.
Qed.

(** C8: on a store that has gone through any run of [store_data] calls,
    none of them for the type [ty], [get_data(ty)] does not fail and
    returns a new, empty list; the dictionary and what it holds are as
    before, and [ty] is still not a key. *)
Theorem get_data_unknown_type
    (W : Z) (calls : list (DiagnosisData * datetime)) (ty : string) :
  Forall (λ c, data_type (fst c) ≠ ty) calls →
  let st := store_all (init W) calls in
  ∃ p st',
    get_data st ty = Some (p, st') ∧
    heap st !! p = None ∧
    heap st' !! p = Some (OList []) ∧
    data st' = data st ∧
    contents st' = contents st ∧
    data st' !! ty = None ∧
    DiagnosisDataManager.get_data
      (DiagnosisDataManager.store_all (DiagnosisDataManager.init W) calls) ty
      = [].
Proof.
  intros Hall st.
  assert (Hwf : wf st) by (apply store_all_refines, wf_init).
  assert (E : data st !! ty = None).
  { unfold st. rewrite store_all_data_ne by done. apply lookup_empty. }
  unfold get_data. rewrite E.
  eexists _, _. split; [reflexivity|].
  pose proof (alloc_fresh st (OList [])) as Hfresh. simpl in Hfresh.
  split; [exact Hfresh|]. split; [apply lookup_insert_eq|].
  split; [done|]. split; [|split; [exact E|]].
  - apply contents_frame. by apply wf_not_free.
  - unfold DiagnosisDataManager.get_data.
    rewrite store_all_lookup_ne by done.
    unfold DiagnosisDataManager.init, DiagnosisDataManager.data. simpl.
    by rewrite lookup_empty.
Qed.

(** C9: in a well-formed state [get_data] returns the address of a new
    list that holds the items of the type; the call changes no object
    that existed and no binding of the dictionary, no binding refers to
    the new list, and whatever the caller then does to that list, at once
    or after any further [store_data] calls, the dictionary and every
    deque it refers to stay as they were: the store goes on as if the
    list had never been handed out. *)
Theorem get_data_returns_private_copy (st : state) (ty : string) :
  wf st →
  ∃ p st',
    get_data st ty = Some (p, st') ∧
    heap st !! p = None ∧
    heap st' !! p = Some (OList (DiagnosisDataManager.get_data (abs st) ty)) ∧
    (∀ q, q ≠ p → heap st' !! q = heap st !! q) ∧
    data st' = data st ∧
    abs st' = abs st ∧
    (∀ ty' q, data st' !! ty' = Some q → q ≠ p) ∧
    (∀ f,
      heap (mutate_list st' p f) !! p
        = Some (OList (f (DiagnosisDataManager.get_data (abs st) ty))) ∧
      data (mutate_list st' p f) = data st ∧
      abs (mutate_list st' p f) = abs st ∧
      (∀ ty' q, data st !! ty' = Some q →
                heap (mutate_list st' p f) !! q = heap st !! q)) ∧
    (∀ calls f,
      abs (mutate_list (store_all st' calls) p f)
        = DiagnosisDataManager.store_all (abs st) calls ∧
      data (mutate_list (store_all st' calls) p f)
        = data (store_all st' calls)).
Proof.
  intros Hwf. destruct (get_data_spec st ty Hwf) as (p & Hget & Hfresh).
  pose proof (wf_not_free st p Hwf Hfresh) as Hfree.
  eexists p, _. split; [exact Hget|].
  set (l := DiagnosisDataManager.get_data (abs st) ty).
  set (st' := set_heap st (<[p := OList l]> (heap st))).
  assert (Hwf' : wf st') by (by apply wf_frame).
  assert (Habs : abs st' = abs st).
  { unfold abs. simpl. f_equal. by apply (contents_frame st p (OList l)). }
  split; [exact Hfresh|]. split; [apply lookup_insert_eq|].
  split; [intros q Hne; by apply lookup_insert_ne|].
  split; [done|]. split; [exact Habs|]. split; [exact Hfree|]. split.
  - intros f. unfold mutate_list, st'. simpl. rewrite lookup_insert_eq. simpl.
    rewrite insert_insert_eq.
    split; [apply lookup_insert_eq|]. split; [done|]. split.
    + unfold abs. simpl. f_equal.
      by apply (contents_frame st p (OList (f l))).
    + intros ty' q E. apply lookup_insert_ne. intros <-. by eapply Hfree.
  - intros calls f.
    destruct (store_all_refines calls st' Hwf') as [Hwf2 Habs2].
    destruct (mutate_list_spec (store_all st' calls) p f Hwf2)
      as (_ & Hdata & Hcontents).
    split; [|exact Hdata].
    rewrite <- Habs, <- Habs2. unfold abs. f_equal; [exact Hcontents|].
    unfold mutate_list. by repeat case_match.
Qed.

(** An instance: two types stored, a third one read. *)
Lemma get_data_unknown_type_witness :
  let calls := [(event_at "t" 0, 0); (event_at "u" 5, 5)] in
  Forall (λ c, data_type (fst c) ≠ "nonexistent_type") calls ∧
  ∃ p st',
    get_data (store_all (init 600) calls) "nonexistent_type" = Some (p, st') ∧
    heap (store_all (init 600) calls) !! p = None ∧
    heap st' !! p = Some (OList []) ∧
    data st' = data (store_all (init 600) calls) ∧
    contents st' = contents (store_all (init 600) calls) ∧
    data st' !! "nonexistent_type" = None ∧
    DiagnosisDataManager.get_data
      (DiagnosisDataManager.store_all (DiagnosisDataManager.init 600) calls)
      "nonexistent_type" = [].
Proof.
  intros calls.
  assert (Hall : Forall (λ c, data_type (fst c) ≠ "nonexistent_type") calls)
    by (repeat constructor; simpl; discriminate).
  split; [exact Hall|].
  exact (get_data_unknown_type 600 calls "nonexistent_type" Hall).
Defined.

(** An instance: the list read after one store, then changed at will. *)
Lemma get_data_returns_private_copy_witness :
  let st := store_data (init 600) (event_at "t" 0) 0 in
  wf st ∧
  ∃ p st',
    get_data st "t" = Some (p, st') ∧
    heap st' !! p = Some (OList [event_at "t" 0]) ∧
    ∀ f, heap (mutate_list st' p f) !! p = Some (OList (f [event_at "t" 0])) ∧
         abs (mutate_list st' p f) = abs st.
Proof.
  intros st.
  assert (Hwf : wf st) by (apply store_data_refines, wf_init).
  split; [exact Hwf|].
  destruct (get_data_returns_private_copy st "t" Hwf)
    as (p & st' & Hget & _ & Hp & _ & _ & _ & _ & Hmut & _).
  assert (E : DiagnosisDataManager.get_data (abs st) "t" = [event_at "t" 0]).
  { unfold st. rewrite (proj2 (store_data_refines _ _ _ (wf_init 600))).
    vm_compute. reflexivity. }
  rewrite E in Hp, Hmut.
  exists p, st'. split; [exact Hget|]. split; [exact Hp|].
  intros f. destruct (Hmut f) as (H1 & _ & H3 & _). by split.
Defined.

End Reading.

(** ** The diagnostician and the observation loop *)

Section Loop.

Import Diagnostician DiagnosisManager.

(** C3 on the code: whatever the problem, [diagnose_failure] returns
    [None], which is no sequence, and the [for] statement of the loop
    that iterates the result raises [TypeError]; a pass of the loop that
    observes the hang problem ends that way. *)
Theorem diagnose_failure_returns_None
    (d : Diagnostician.t) (problem : Inference) :
  diagnose_failure d problem = PyNone ∧
  (∀ l, diagnose_failure d problem ≠ PyList l) ∧
  iter (diagnose_failure d problem) = ([], Raise TypeError_not_iterable) ∧
  snd (loop_pass (set_observing init true)
         {| size := 0; observed := Ok [hang_problem] |})
    = Raise TypeError_not_iterable.
Proof. repeat split. intros l. discriminate. Qed.

Lemma iteration_raise (self : DiagnosisManager.t) (tk : tick) (e : exn) :
  observed tk = Raise e →
  iteration self tk =
    ([Log INFO "Current diagnosis data size: {}." [ArgSize (size tk)];
      ChainInfer (_training_problems (_diagnostician self))
                 [CheckTrainingHangOperator]],
     Raise e).
Proof. intros E. unfold iteration. simpl. by rewrite E. Qed.

Lemma iteration_nothing (self : DiagnosisManager.t) (tk : tick) :
  observed tk = Ok [] →
  iteration self tk =
    ([Log INFO "Current diagnosis data size: {}." [ArgSize (size tk)];
      ChainInfer (_training_problems (_diagnostician self))
                 [CheckTrainingHangOperator];
      Sleep MASTER_DIAGNOSIS_OBSERVING_INTERVAL_SECS],
     Ok tt).
Proof. intros E. unfold iteration. simpl. by rewrite E. Qed.

(** A run that left through [break] saw the flag cleared, in a pass
    before which every pass saw it set. *)
Lemma while_true_stopped (passes : list (DiagnosisManager.t * tick))
    (tr : list effect) :
  while_true passes = (tr, Stopped) →
  ∃ before self tk after,
    passes = before ++ (self, tk) :: after ∧
    _is_observing_started self = false ∧
    Forall (λ p, _is_observing_started (fst p) = true) before.
Proof.
  revert tr. induction passes as [|[self tk] rest IH]; intros tr; [done|].
  simpl. unfold loop_pass.
  destruct (_is_observing_started self) eqn:Eflag; simpl.
  - destruct (iteration self tk) as [tr1 [[]|e]]; simpl; [|done].
    destruct (while_true rest) as [tr2 e2]. intros [= <- ->].
    destruct (IH _ eq_refl) as (before & s & t & after & -> & Hs & Hb).
    exists ((self, tk) :: before), s, t, after. repeat split; [done|].
    by constructor.
  - intros _. exists [], self, tk, rest. by repeat split.
Qed.

(** C4, as the code has it: the loop leaves through [break] only in a
    pass that finds the flag cleared; a pass that finds it set and in
    which [observe_training] raises ends the loop with that exception,
    before the sleep; a pass that finds it set and observes nothing
    sleeps, and the loop goes on with the next pass. *)
Theorem loop_has_no_exception_handler :
  (∀ passes tr,
     while_true passes = (tr, Stopped) →
     ∃ before self tk after,
       passes = before ++ (self, tk) :: after ∧
       _is_observing_started self = false ∧
       Forall (λ p, _is_observing_started (fst p) = true) before) ∧
  (∀ self tk rest,
     _is_observing_started self = false →
     ∃ tr, while_true ((self, tk) :: rest) = (tr, Stopped)) ∧
  (∀ self tk rest e,
     _is_observing_started self = true →
     observed tk = Raise e →
     ∃ tr, while_true ((self, tk) :: rest) = (tr, Crashed e) ∧
           ∀ s, Sleep s ∉ tr) ∧
  (∀ self tk rest,
     _is_observing_started self = true →
     observed tk = Ok [] →
     ∃ tr, while_true ((self, tk) :: rest)
             = ((tr ++ [Sleep MASTER_DIAGNOSIS_OBSERVING_INTERVAL_SECS])
                  ++ fst (while_true rest),
                snd (while_true rest))).
Proof.
  split; [exact while_true_stopped|]. repeat split.
  - intros self tk rest Eflag. simpl. unfold loop_pass. rewrite Eflag. simpl.
    eauto.
  - intros self tk rest e Eflag E. simpl. unfold loop_pass. rewrite Eflag.
    simpl negb. cbv iota. rewrite (iteration_raise _ _ _ E). simpl.
    eexists; split; [reflexivity|].
    intros s Hin. repeat (apply elem_of_cons in Hin as [Hin|Hin]; [done|]).
    by apply elem_of_nil in Hin.
  - intros self tk rest Eflag E. simpl. unfold loop_pass. rewrite Eflag.
    simpl negb. cbv iota. rewrite (iteration_nothing _ _ E). simpl.
    destruct (while_true rest) as [tr' e']. simpl.
    by exists [Log INFO "Current diagnosis data size: {}." [ArgSize (size tk)];
            ChainInfer (_training_problems (_diagnostician self))
              [CheckTrainingHangOperator]].
Qed.

(** C4 fails on the code: with the flag set in every pass, a chain
    evaluation that raises in the first pass ends the loop there, with no
    sleep and no further pass, although the second pass would have
    observed nothing. *)
Lemma loop_ended_by_exception :
  let observing := set_observing init true in
  let passes := [(observing, {| size := 64; observed := Raise chain_failure |});
                 (observing, {| size := 64; observed := Ok [] |})] in
  snd (_diagnose_failures passes) = Crashed chain_failure ∧
  snd (_diagnose_failures passes) ≠ Looping ∧
  (∀ s, Sleep s ∉ fst (_diagnose_failures passes)) ∧
  Forall (λ p, _is_observing_started (fst p) = true) passes.
Proof.
  simpl. repeat split; try done.
  - intros s Hin. repeat (apply elem_of_cons in Hin as [Hin|Hin]; [done|]).
    by apply elem_of_nil in Hin.
  - by repeat constructor.
Qed.

(** An instance: one pass, the flag set, the chain raising. *)
Lemma loop_has_no_exception_handler_witness :
  let observing := set_observing init true in
  let tk := {| size := 64; observed := Raise chain_failure |} in
  _is_observing_started observing = true ∧
  observed tk = Raise chain_failure ∧
  ∃ tr, while_true [(observing, tk)] = (tr, Crashed chain_failure) ∧
        ∀ s, Sleep s ∉ tr.
Proof.
  intros observing tk.
  split; [reflexivity|]. split; [reflexivity|].
  exact (proj1 (proj2 (proj2 loop_has_no_exception_handler))
           observing tk [] chain_failure eq_refl eq_refl).
Defined.

End Loop.

(** ** The life cycle of the manager *)

Section Lifecycle.

Import Diagnostician DiagnosisManager.

Lemma running_loops_app (w : world) (ts : list thread_state) :
  length (filter (λ s, is_alive s = true) (threads w ++ ts))
    = (running_loops w + length (filter (λ s, is_alive s = true) ts))%nat.
Proof. unfold running_loops. by rewrite filter_app, length_app. Qed.

Lemma start_observing_started (w : world) :
  let w' := fst (start_observing w (Ok tt)) in
  snd (start_observing w (Ok tt)) = Ok tt ∧
  threads w' = threads w ++ [Alive] ∧
  running_loops w' = S (running_loops w) ∧
  _is_observing_started (self w') = true ∧
  _training_problems (_diagnostician (self w'))
    = [mkInference TRAINING ISORNOT HANG].
Proof.
  unfold start_observing, spawn. simpl.
  rewrite lookup_app_r by done. rewrite Nat.sub_diag. simpl.
  repeat split.
  unfold running_loops at 1. simpl.
  rewrite running_loops_app. simpl. lia.
Qed.

(** C5, as the code has it: [stop_observing()] on an idle manager
    changes neither the manager nor the threads and only writes its log
    line; [start_observing()] does not look at the flag or at the threads
    already started, and every call whose thread starts adds one running
    loop to those there are. *)
Theorem lifecycle_without_guard (w : world) :
  (_is_observing_started (self w) = false →
   self (stop_observing w) = self w ∧
   threads (stop_observing w) = threads w ∧
   trace (stop_observing w)
     = trace w ++ [Log INFO "Stop Diagnosis Manager to observing training." []]) ∧
  (threads (fst (start_observing w (Ok tt))) = threads w ++ [Alive] ∧
   running_loops (fst (start_observing w (Ok tt))) = S (running_loops w) ∧
   _is_observing_started (self (fst (start_observing w (Ok tt)))) = true).
Proof.
  split.
  - intros Eflag. unfold stop_observing. simpl. repeat split.
    destruct w as [[flag dm dg] ts tr]. simpl in *. by subst.
  - destruct (start_observing_started w) as (_ & H1 & H2 & H3 & _). done.
Qed.

(** C5 fails on the code: two calls of [start_observing()] in succession
    leave two background loops running, both under the same flag. *)
Lemma start_observing_twice_two_loops :
  let w1 := fst (start_observing start (Ok tt)) in
  let w2 := fst (start_observing w1 (Ok tt)) in
  threads w2 = [Alive; Alive] ∧
  running_loops w2 = 2%nat ∧
  _is_observing_started (self w2) = true.
Proof. vm_compute. done. Qed.

(** An instance: the new manager, idle. *)
Lemma lifecycle_without_guard_witness :
  _is_observing_started (self start) = false ∧
  self (stop_observing start) = self start ∧
  threads (stop_observing start) = threads start ∧
  running_loops (fst (start_observing start (Ok tt))) = 1%nat.
Proof.
  split; [reflexivity|].
  destruct (lifecycle_without_guard start) as [Hstop (_ & Hrun & _)].
  destruct (Hstop eq_refl) as (Hself & Hthreads & _).
  split; [exact Hself|]. split; [exact Hthreads|]. exact Hrun.
Defined.

(** C6, as the code has it: when creating or starting the thread raises
    an exception that derives from [Exception], [start_observing()]
    returns normally; it has logged the failure as an error, no thread
    has been added and none is started again, and the flag, set before
    the attempt, is still set. *)
Theorem start_observing_failure (w : world) (e : exn) :
  is_Exception e = true →
  let w' := fst (start_observing w (Raise e)) in
  snd (start_observing w (Raise e)) = Ok tt ∧
  threads w' = threads w ∧
  trace w' = trace w ++
    [Log INFO "Start Diagnosis Manager to observing training..." [];
     Log ERROR "Failed to start the diagnosis manager thread. Error: {}"
         [ArgExn e]] ∧
  _is_observing_started (self w') = true.
Proof.
  intros He. unfold start_observing. rewrite He. simpl.
  repeat split. by rewrite <- app_assoc.
Qed.

(** C6 fails on the code: after a start whose thread could not be
    started the manager has no loop, and its flag is set. *)
Lemma failed_start_leaves_flag_set :
  let w := fst (start_observing start (Raise cannot_start_thread)) in
  _is_observing_started (self start) = false ∧
  running_loops w = 0%nat ∧
  _is_observing_started (self w) = true.
Proof. vm_compute. done. Qed.

(** An instance: the thread cannot be started, on a new manager. *)
Lemma start_observing_failure_witness :
  let w' := fst (start_observing start (Raise cannot_start_thread)) in
  is_Exception cannot_start_thread = true ∧
  snd (start_observing start (Raise cannot_start_thread)) = Ok tt ∧
  threads w' = threads start ∧
  trace w' = trace start ++
    [Log INFO "Start Diagnosis Manager to observing training..." [];
     Log ERROR "Failed to start the diagnosis manager thread. Error: {}"
         [ArgExn cannot_start_thread]] ∧
  _is_observing_started (self w') = true.
Proof.
  split; [reflexivity|].
  exact (start_observing_failure start cannot_start_thread eq_refl).
Defined.

(** C10, as the code has it: [pre_check()] writes its log line and
    replaces the registered pre-check seeds by the empty list, whatever
    the flag, which it leaves as it is together with the threads, the
    data and the registered problems; it evaluates no chain.  A call of
    [check_training()] afterwards evaluates the chain over the empty
    seed list with the empty pre-check catalogue. *)
Theorem pre_check_only_registers (w : world) :
  let w' := pre_check w in
  _pre_checks (_diagnostician (self w')) = [] ∧
  trace w' = trace w ++
    [Log INFO "Start Diagnosis Manager to pre-check training..." []] ∧
  _is_observing_started (self w') = _is_observing_started (self w) ∧
  threads w' = threads w ∧
  _data_manager (self w') = _data_manager (self w) ∧
  _training_problems (_diagnostician (self w'))
    = _training_problems (_diagnostician (self w)) ∧
  ∀ outcome,
    check_training (_diagnostician (self w')) outcome
      = ([ChainInfer [] []], outcome).
Proof. by repeat split. Qed.

(** C10 fails on the code: [pre_check()] on a new manager leaves no
    chain evaluation in the trace, where [check_training()] leaves one. *)
Lemma pre_check_evaluates_no_chain :
  (∀ seeds operators, ChainInfer seeds operators ∉ trace (pre_check start)) ∧
  ChainInfer [] [] ∈
    fst (check_training (_diagnostician (self (pre_check start))) (Ok [])).
Proof.
  split.
  - intros seeds operators Hin. simpl in Hin.
    apply elem_of_cons in Hin as [Hin|Hin]; [done|].
    by apply elem_of_nil in Hin.
  - simpl. apply elem_of_cons. by left.
Qed.

(** The two ways a started loop ends: it finds the flag cleared at its
    next pass, or a pass raises while the flag is still set. *)
Lemma thread_pass_after_stop (w : world) (tid : nat) (tk : tick) :
  threads w !! tid = Some Alive →
  threads (thread_pass (stop_observing w) tid tk) !! tid = Some Finished.
Proof.
  intros E. unfold thread_pass, stop_observing. simpl. rewrite E. simpl.
  apply list_lookup_insert_eq. by eapply lookup_lt_Some.
Qed.

Lemma thread_pass_raise (w : world) (tid : nat) (tk : tick) (e : exn) :
  threads w !! tid = Some Alive →
  _is_observing_started (self w) = true →
  observed tk = Raise e →
  threads (thread_pass w tid tk) !! tid = Some (Died e) ∧
  _is_observing_started (self (thread_pass w tid tk)) = true.
Proof.
  intros E Eflag Eobs. unfold thread_pass, loop_pass. rewrite E, Eflag.
  simpl negb. cbv iota. rewrite (iteration_raise _ _ _ Eobs). simpl.
  split; [|done]. apply list_lookup_insert_eq. by eapply lookup_lt_Some.
Qed.

Example started_loop_crashes :
  let w := fst (start_observing start (Ok tt)) in
  let w' := thread_pass w 0 {| size := 64; observed := Raise chain_failure |} in
  threads w' = [Died chain_failure] ∧
  running_loops w' = 0%nat ∧
  _is_observing_started (self w') = true.
Proof. vm_compute. done. Qed.

End Lifecycle.

(** * Further properties of the code *)

(** ** The store under [store_data] *)

Section StoreExtras.

Import Deque DiagnosisDataManager.

Lemma store_ok_init (W : Z) : store_ok (init W).
Proof. intros ty dq. unfold init, data. simpl. by rewrite lookup_empty. Qed.

Lemma appended_maxlen (self : t) (d : DiagnosisData) :
  store_ok self →
  maxlen (appended self d) = None ∨ maxlen (appended self d) = Some capacity.
Proof.
  intros Hok. unfold appended. rewrite append_maxlen.
  destruct (data self !! data_type d) as [dq|] eqn:E; simpl.
  - by eapply Hok.
  - by right.
Qed.

Lemma store_data_ok (self : t) (d : DiagnosisData) (now : datetime) :
  store_ok self → store_ok (store_data self d now).
Proof.
  intros Hok ty dq. destruct (decide (ty = data_type d)) as [->|Hne].
  - rewrite store_data_lookup. intros [= <-]. simpl.
    case_match; [by left|]. by apply appended_maxlen.
  - rewrite store_data_lookup_ne by done. apply Hok.
Qed.

Lemma store_all_ok (calls : list (DiagnosisData * datetime)) (self : t) :
  store_ok self → store_ok (store_all self calls).
Proof.
  revert self. induction calls as [|c calls IH]; intros self Hok; [done|].
  rewrite store_all_cons. by apply IH, store_data_ok.
Qed.

(** The sequence after the append is the old one with the event at its
    end, less its first entry when the bound is exceeded. *)
Lemma appended_items (self : t) (d : DiagnosisData) :
  ∃ k, items (appended self d) = drop k (get_data self (data_type d) ++ [d]).
Proof.
  unfold appended, get_data, append.
  destruct (data self !! data_type d) as [dq|] eqn:E; simpl.
  - destruct (maxlen dq) as [n|]; [|by exists 0%nat].
    case_match; simpl; [|by exists 0%nat].
    exists 1%nat. by destruct (items dq).
  - by exists 0%nat.
Qed.

Lemma store_data_suffix (self : t) (d : DiagnosisData) (now : datetime) :
  ∃ k, get_data (store_data self d now) (data_type d)
         = drop k (get_data self (data_type d) ++ [d]).
Proof.
  rewrite get_data_store_data.
  destruct (appended_items self d) as [k ->].
  rewrite drop_drop. eauto.
Qed.

(** X1: [store_data] touches the type of its event only: the deque and
    the sequence of every other type, and the window, are as before. *)
Theorem store_data_other_types
    (self : t) (d : DiagnosisData) (now : datetime) (ty : string) :
  ty ≠ data_type d →
  data (store_data self d now) !! ty = data self !! ty ∧
  get_data (store_data self d now) ty = get_data self ty ∧
  expire_time_period (store_data self d now) = expire_time_period self.
Proof.
  intros Hne. split; [by apply store_data_lookup_ne|].
  split; [by apply get_data_store_data_ne|apply store_data_period].
Qed.

(** X2: what [store_data] leaves under the type of its event is a tail
    end of the old sequence followed by the event: nothing is reordered,
    nothing but the event is added, and the sequence grows by one entry
    at most. *)
Theorem store_data_keeps_a_suffix
    (self : t) (d : DiagnosisData) (now : datetime) :
  let old := get_data self (data_type d) in
  let kept := get_data (store_data self d now) (data_type d) in
  (∃ k, kept = drop k (old ++ [d])) ∧
  (length kept ≤ length old + 1)%nat ∧
  (∀ e, e ∈ kept → e ∈ old ∨ e = d).
Proof.
  intros old kept.
  destruct (store_data_suffix self d now) as [k Hk]. fold old kept in Hk.
  split; [eauto|]. split.
  - rewrite Hk, length_drop, length_app. simpl. lia.
  - intros e He. rewrite Hk in He.
    apply (subseteq_drop k) in He.
    apply elem_of_app in He as [He|He]; [by left|right].
    by apply list_elem_of_singleton in He.
Qed.

Lemma scan_expired_snoc_fresh (W : Z) (now : datetime)
    (front : list DiagnosisData) (d : DiagnosisData) :
  has_expired (timestamp d) W now = false →
  (scan_expired W now (front ++ [d]) 0 ≤ length front)%nat.
Proof.
  intros Hd. induction front as [|e front IH]; simpl app.
  - by rewrite scan_expired_head_fresh.
  - rewrite scan_expired_cons. case_match; simpl; lia.
Qed.

(** X3: on a store that [store_data] calls have built, an event that is
    not stale when it is stored is the newest entry of its type
    afterwards. *)
Theorem fresh_event_is_newest
    (W : Z) (calls : list (DiagnosisData * datetime))
    (d : DiagnosisData) (now : datetime) :
  has_expired (timestamp d) W now = false →
  last (get_data (store_data (store_all (init W) calls) d now) (data_type d))
    = Some d.
Proof.
  intros Hd. set (self := store_all (init W) calls).
  assert (Hok : store_ok self) by apply store_all_ok, store_ok_init.
  assert (HW : expire_time_period self = W) by apply store_all_period.
  rewrite get_data_store_data, HW.
  assert (Hfront : ∃ front, items (appended self d) = front ++ [d]).
  { pose proof (appended_maxlen self d Hok) as Hmax.
    unfold appended in *. rewrite append_maxlen in Hmax.
    destruct (default (new capacity) (data self !! data_type d))
      as [old ml]. simpl in Hmax. unfold append. simpl.
    destruct ml as [n|]; [|by eexists].
    destruct Hmax as [?|[= ->]]; [done|].
    destruct (Z.ltb_spec capacity (Z.of_nat (length (old ++ [d]))));
      simpl; [|by eexists].
    destruct old as [|x old]; simpl; [|by eexists].
    unfold capacity in *. simpl in *. lia. }
  destruct Hfront as [front ->].
  pose proof (scan_expired_snoc_fresh W now front d Hd) as Hle.
  rewrite drop_app_le by done. apply last_snoc.
Qed.




Lemma store_data_keeps_keys (self : t) (d : DiagnosisData) (now : datetime)
    (ty : string) :
  is_Some (data self !! ty) ∨ ty = data_type d →
  is_Some (data (store_data self d now) !! ty).
Proof.
  intros H. destruct (decide (ty = data_type d)) as [->|Hne].
  - rewrite store_data_lookup. eauto.
  - rewrite store_data_lookup_ne by done. by destruct H.
Qed.

(** X5: a type is a key of the store from its first event on: whatever
    is stored later, and even when all its events have been evicted, the
    key stays. *)
Theorem keys_are_never_removed
    (self : t) (calls : list (DiagnosisData * datetime)) (ty : string) :
  is_Some (data self !! ty) ∨ ty ∈ map (λ c, data_type (fst c)) calls →
  is_Some (data (store_all self calls) !! ty).
Proof.
  revert self. induction calls as [|c calls IH]; intros self H.
  - destruct H as [H|H]; [done|]. by apply elem_of_nil in H.
  - rewrite store_all_cons. apply IH.
    destruct H as [H|H].
    + left. apply store_data_keeps_keys. by left.
    + simpl in H. apply elem_of_cons in H as [->|H]; [|by right].
      left. apply store_data_keeps_keys. by right.
Qed.

End StoreExtras.

(** ** Eviction on sequences in timestamp order *)

Section SortedStore.

Import Deque DiagnosisDataManager.

Lemma by_timestamp_snoc (l : list DiagnosisData) (d : DiagnosisData) :
  by_timestamp l →
  Forall (λ e, timestamp e <= timestamp d) l →
  by_timestamp (l ++ [d]).
Proof.
  unfold by_timestamp. induction l as [|e l IH]; intros Hs Hall; simpl.
  - repeat constructor.
  - inversion Hs; subst. inversion Hall; subst.
    constructor; [by apply IH|].
    apply Forall_app. split; [done|]. by repeat constructor.
Qed.



Lemma scan_expired_drop_scan (W : Z) (now : datetime)
    (l : list DiagnosisData) :
  scan_expired W now (drop (scan_expired W now l 0) l) 0 = 0%nat.
Proof.
  pose proof (scan_expired_stop W now l) as Hstop.
  destruct (drop (scan_expired W now l 0) l) as [|e rest]; [done|].
  apply scan_expired_head_fresh. by apply Hstop.
Qed.


(** X7: [store_data] keeps a sequence in timestamp order when the new
    event is not older than the events already there. *)
Theorem store_data_keeps_timestamp_order
    (self : t) (d : DiagnosisData) (now : datetime) :
  by_timestamp (get_data self (data_type d)) →
  Forall (λ e, timestamp e <= timestamp d) (get_data self (data_type d)) →
  by_timestamp (get_data (store_data self d now) (data_type d)).
Proof.
  intros Hs Hall.
  destruct (store_data_suffix self d now) as [k ->].
  apply StronglySorted_drop. by apply by_timestamp_snoc.
Qed.

(** X8: cleaning is idempotent: a second [_clean_diagnosis_data] of the
    same type at the same clock reading changes nothing. *)
Theorem clean_twice (self : t) (ty : string) (now : datetime) :
  _clean_diagnosis_data (_clean_diagnosis_data self ty now) ty now
    = _clean_diagnosis_data self ty now.
Proof.
  destruct (data self !! ty) as [dq|] eqn:E.
  - pose proof (clean_lookup self ty now dq E) as Hl.
    pose proof (clean_period self ty now) as Hp.
    set (self' := _clean_diagnosis_data self ty now) in *.
    unfold _clean_diagnosis_data at 1. rewrite Hl, Hp. simpl.
    destruct (scan_expired (expire_time_period self) now (items dq) 0)
      as [|n] eqn:En; simpl.
    + by rewrite En.
    + rewrite <- En, scan_expired_drop_scan. done.
  - unfold _clean_diagnosis_data. by rewrite E, E.
Qed.


End SortedStore.

(** ** Lists handed out by [get_data] *)

Section Snapshots.

Import Deque Heap.

Lemma alloc_keeps (st : state) (o o' : obj) (p : loc) :
  heap st !! p = Some o' →
  heap (alloc st o).2 !! p = Some o'.
Proof.
  intros E. simpl. rewrite lookup_insert_ne; [done|].
  intros <-. pose proof (alloc_fresh st o) as Hf. simpl in Hf. congruence.
Qed.

Lemma ensure_deque_keeps (st : state) (ty : string) (p : loc) (o : obj) :
  heap st !! p = Some o → heap (ensure_deque st ty) !! p = Some o.
Proof.
  intros E. unfold ensure_deque. destruct (data st !! ty); [done|].
  by apply (alloc_keeps st (ODeque (new DiagnosisDataManager.capacity))).
Qed.

Lemma append_data_keeps_list (st : state) (ty : string) (d : DiagnosisData)
    (p : loc) (l : list DiagnosisData) :
  heap st !! p = Some (OList l) →
  heap (append_data st ty d) !! p = Some (OList l).
Proof.
  intros E. unfold append_data.
  destruct (data st !! ty) as [q|]; [|done].
  destruct (deque_at (heap st) q) as [dq|] eqn:Eq; [|done].
  simpl. rewrite lookup_insert_ne; [done|].
  intros ->. by rewrite (deque_at_not_list _ _ _ E) in Eq.
Qed.

Lemma clean_keeps (st : state) (ty : string) (now : datetime)
    (p : loc) (o : obj) :
  heap st !! p = Some o →
  heap (_clean_diagnosis_data st ty now) !! p = Some o.
Proof.
  intros E. unfold _clean_diagnosis_data.
  destruct (data st !! ty) as [q|]; [|done].
  destruct (deque_at (heap st) q) as [dq|]; [|done].
  case_match; [|done].
  by apply (alloc_keeps st
              (ODeque (of_iterable
                 (islice dq
                    (DiagnosisDataManager.scan_expired (expire_time_period st)
                       now (items dq) 0) (len dq))))).
Qed.

Lemma store_data_keeps_list (st : state) (d : DiagnosisData) (now : datetime)
    (p : loc) (l : list DiagnosisData) :
  heap st !! p = Some (OList l) →
  heap (store_data st d now) !! p = Some (OList l).
Proof.
  intros E. unfold store_data.
  by apply clean_keeps, append_data_keeps_list, ensure_deque_keeps.
Qed.

Lemma store_all_keeps_list (calls : list (DiagnosisData * datetime))
    (st : state) (p : loc) (l : list DiagnosisData) :
  heap st !! p = Some (OList l) →
  heap (store_all st calls) !! p = Some (OList l).
Proof.
  revert st. induction calls as [|c calls IH]; intros st E; [done|].
  simpl. by apply IH, store_data_keeps_list.
Qed.

(** X10: the list [get_data] returns is a snapshot: whatever is stored
    afterwards, under its type or another, the list still holds the
    items it was given when it was made, while the store itself moves
    on. *)
Theorem snapshot_is_stable
    (st : state) (ty : string) (calls : list (DiagnosisData * datetime)) :
  wf st →
  ∃ p st',
    get_data st ty = Some (p, st') ∧
    heap (store_all st' calls) !! p
      = Some (OList (DiagnosisDataManager.get_data (abs st) ty)) ∧
    abs (store_all st' calls) = DiagnosisDataManager.store_all (abs st) calls.
Proof.
  intros Hwf. destruct (get_data_spec st ty Hwf) as (p & Hget & Hfresh).
  eexists p, _. split; [exact Hget|].
  set (l := DiagnosisDataManager.get_data (abs st) ty).
  set (st' := set_heap st (<[p := OList l]> (heap st))).
  pose proof (wf_not_free st p Hwf Hfresh) as Hfree.
  assert (Hwf' : wf st') by (by apply wf_frame).
  assert (Habs : abs st' = abs st).
  { unfold abs. simpl. f_equal. by apply (contents_frame st p (OList l)). }
  split.
  - apply store_all_keeps_list. apply lookup_insert_eq.
  - rewrite <- Habs. by apply store_all_refines.
Qed.

(** X11: two calls of [get_data] for one type return two different
    lists with the same items, and a change of the first is not seen in
    the second. *)
Theorem get_data_twice (st : state) (ty : string) :
  wf st →
  ∃ p1 st1 p2 st2 l,
    get_data st ty = Some (p1, st1) ∧
    get_data st1 ty = Some (p2, st2) ∧
    p1 ≠ p2 ∧
    heap st2 !! p1 = Some (OList l) ∧
    heap st2 !! p2 = Some (OList l) ∧
    ∀ f, heap (mutate_list st2 p1 f) !! p1 = Some (OList (f l)) ∧
         heap (mutate_list st2 p1 f) !! p2 = Some (OList l).
Proof.
  intros Hwf. destruct (get_data_spec st ty Hwf) as (p1 & Hget1 & Hfresh1).
  set (l := DiagnosisDataManager.get_data (abs st) ty) in *.
  set (st1 := set_heap st (<[p1 := OList l]> (heap st))) in *.
  pose proof (wf_not_free st p1 Hwf Hfresh1) as Hfree.
  assert (Hwf1 : wf st1) by (by apply wf_frame).
  assert (Habs : abs st1 = abs st).
  { unfold abs. simpl. f_equal. by apply (contents_frame st p1 (OList l)). }
  destruct (get_data_spec st1 ty Hwf1) as (p2 & Hget2 & Hfresh2).
  rewrite Habs in Hget2. fold l in Hget2.
  assert (Hne : p1 ≠ p2).
  { intros ->. unfold st1 in Hfresh2. simpl in Hfresh2.
    by rewrite lookup_insert_eq in Hfresh2. }
  eexists p1, st1, p2, _, l.
  split; [exact Hget1|]. split; [exact Hget2|]. split; [exact Hne|].
  assert (H1 : heap (set_heap st1 (<[p2 := OList l]> (heap st1))) !! p1
               = Some (OList l)).
  { simpl. rewrite lookup_insert_ne by done. apply lookup_insert_eq. }
  split; [exact H1|]. split; [apply lookup_insert_eq|].
  intros f. unfold mutate_list. rewrite H1. simpl.
  split; [apply lookup_insert_eq|].
  rewrite lookup_insert_ne by done. apply lookup_insert_eq.
Qed.

End Snapshots.

(** ** The loop and the life cycle, further *)

Section LoopExtras.

Import Diagnostician DiagnosisManager.

Lemma iteration_problem (self : DiagnosisManager.t) (tk : tick)
    (problem : Inference) (others : list Inference) :
  observed tk = Ok (problem :: others) →
  iteration self tk =
    ([Log INFO "Current diagnosis data size: {}." [ArgSize (size tk)];
      ChainInfer (_training_problems (_diagnostician self))
                 [CheckTrainingHangOperator];
      Log INFO "Observe problem in diagnosing: {}" [ArgInference problem]],
     Raise TypeError_not_iterable).
Proof. intros E. unfold iteration. simpl. by rewrite E. Qed.

(** X12: the loop is still going round after the given passes exactly
    when each of them found the flag set and observed no problem. *)
Theorem loop_goes_on_iff (passes : list (DiagnosisManager.t * tick)) :
  snd (while_true passes) = Looping ↔
  Forall (λ p, _is_observing_started (fst p) = true ∧
               observed (snd p) = Ok []) passes.
Proof.
  induction passes as [|[self tk] rest IH]; [by split|].
  simpl. unfold loop_pass.
  destruct (_is_observing_started self) eqn:Eflag; simpl.
  - destruct (observed tk) as [[|problem others]|e] eqn:Eobs.
    + rewrite (iteration_nothing _ _ Eobs). simpl.
      destruct (while_true rest) as [tr' e']. simpl in *.
      rewrite IH. split.
      * intros H. constructor; [by split|done].
      * intros H. by inversion H.
    + rewrite (iteration_problem _ _ _ _ Eobs). simpl. split; [done|].
      intros H. inversion H as [|? ? [_ Hobs] _]; subst. simpl in Hobs.
      congruence.
    + rewrite (iteration_raise _ _ _ Eobs). simpl. split; [done|].
      intros H. inversion H as [|? ? [_ Hobs] _]; subst. simpl in Hobs.
      congruence.
  - split; [done|].
    intros H. inversion H as [|? ? [Hflag _] _]; subst. simpl in Hflag.
    congruence.
Qed.

(** X13: a pass that finds the flag set and observes a problem logs the
    first problem and ends the loop there with a [TypeError]: no root
    cause is logged, the other problems are not looked at, and the loop
    does not sleep or go round again. *)
Theorem observed_problem_ends_loop
    (self : DiagnosisManager.t) (tk : tick)
    (problem : Inference) (others : list Inference)
    (rest : list (DiagnosisManager.t * tick)) :
  _is_observing_started self = true →
  observed tk = Ok (problem :: others) →
  while_true ((self, tk) :: rest) =
    ([Log INFO "Current diagnosis data size: {}." [ArgSize (size tk)];
      ChainInfer (_training_problems (_diagnostician self))
                 [CheckTrainingHangOperator];
      Log INFO "Observe problem in diagnosing: {}" [ArgInference problem]],
     Crashed TypeError_not_iterable).
Proof.
  intros Eflag Eobs. simpl. unfold loop_pass. rewrite Eflag.
  simpl negb. cbv iota. by rewrite (iteration_problem _ _ _ _ Eobs).
Qed.

Lemma thread_pass_self (w : world) (tid : nat) (tk : tick) :
  self (thread_pass w tid tk) = self w.
Proof.
  unfold thread_pass. destruct (threads w !! tid) as [[]|]; try done.
  by destruct (loop_pass (self w) tk).
Qed.

Lemma thread_pass_length (w : world) (tid : nat) (tk : tick) :
  length (threads (thread_pass w tid tk)) = length (threads w).
Proof.
  unfold thread_pass. destruct (threads w !! tid) as [[]|]; try done.
  destruct (loop_pass (self w) tk). simpl. apply length_insert.
Qed.

Lemma thread_pass_other (w : world) (tid j : nat) (tk : tick) :
  j ≠ tid → threads (thread_pass w tid tk) !! j = threads w !! j.
Proof.
  intros Hne. unfold thread_pass.
  destruct (threads w !! tid) as [[]|]; try done.
  destruct (loop_pass (self w) tk). simpl. by apply list_lookup_insert_ne.
Qed.


(** X15: [stop_observing()] followed by [start_observing()] before a
    running loop has polled the flag does not stop that loop: the loop
    finds the flag set at its next pass and goes on, beside the loop
    just started. *)
Theorem stop_then_start_keeps_old_loop (w : world) (tid : nat) (tk : tick) :
  threads w !! tid = Some Alive →
  observed tk = Ok [] →
  let w' := fst (start_observing (stop_observing w) (Ok tt)) in
  threads (thread_pass w' tid tk) !! tid = Some Alive ∧
  running_loops w' = S (running_loops w).
Proof.
  intros E Eobs w'.
  destruct (start_observing_started (stop_observing w))
    as (_ & Hthreads & Hrun & Hflag & _). fold w' in Hthreads, Hrun, Hflag.
  split; [|exact Hrun].
  assert (E' : threads w' !! tid = Some Alive).
  { rewrite Hthreads. simpl. by apply lookup_app_l_Some. }
  unfold thread_pass, loop_pass. rewrite E', Hflag.
  simpl negb. cbv iota. rewrite (iteration_nothing _ _ Eobs). simpl.
  apply list_lookup_insert_eq. by eapply lookup_lt_Some.
Qed.

Lemma no_running_loops (w : world) :
  (∀ j s, threads w !! j = Some s → is_alive s = false) →
  running_loops w = 0%nat.
Proof.
  intros H. unfold running_loops.
  induction (threads w) as [|s l IH]; [done|].
  rewrite filter_cons_False.
  - apply IH. intros j s' E. by apply (H (S j)).
  - rewrite (H 0%nat s eq_refl). discriminate.
Qed.

Lemma pass_from_stopped (tks : list tick) (w : world) (tid : nat) :
  _is_observing_started (self w) = false →
  (∀ j s, (j < tid)%nat → threads w !! j = Some s → is_alive s = false) →
  (length (threads w) ≤ tid + length tks)%nat →
  running_loops (pass_from w tid tks) = 0%nat ∧
  self (pass_from w tid tks) = self w.
Proof.
  revert w tid. induction tks as [|tk rest IH]; intros w tid Eflag Hdone Hlen.
  - simpl in *. split; [|done]. apply no_running_loops.
    intros j s E. apply (Hdone j); [|done].
    apply lookup_lt_Some in E. lia.
  - simpl. destruct (IH (thread_pass w tid tk) (S tid)) as [Hrun Hself].
    + by rewrite thread_pass_self.
    + intros j s Hj E. destruct (decide (j = tid)) as [->|Hne].
      * revert E. unfold thread_pass, loop_pass. rewrite Eflag. simpl.
        destruct (threads w !! tid) as [[]|] eqn:Et; simpl.
        -- rewrite list_lookup_insert_eq by (by eapply lookup_lt_Some).
           by intros [= <-].
        -- rewrite Et. by intros [= <-].
        -- rewrite Et. by intros [= <-].
        -- by rewrite Et.
      * rewrite thread_pass_other in E by done.
        apply (Hdone j); [lia|done].
    + rewrite thread_pass_length. simpl in Hlen. lia.
    + split; [exact Hrun|]. by rewrite Hself, thread_pass_self.
Qed.

(** X16: once the flag is cleared and not set again, one pass of every
    thread ends every loop that was still running: each finds the flag
    cleared and leaves; the manager is not changed by it. *)
Theorem stop_ends_every_loop (w : world) (tks : list tick) :
  (length (threads w) ≤ length tks)%nat →
  running_loops (pass_each (stop_observing w) tks) = 0%nat ∧
  self (pass_each (stop_observing w) tks) = self (stop_observing w).
Proof.
  intros Hlen. apply pass_from_stopped; [done| |done].
  intros j s Hj. lia.
Qed.

End LoopExtras.

(** ** Interleavings of calls and loop passes *)

Section Interleavings.

Import Diagnostician DiagnosisManager.

Lemma iteration_trace (self : DiagnosisManager.t) (tk : tick) :
  Forall (λ e, match e with
               | ChainInfer seeds operators =>
                   seeds = _training_problems (_diagnostician self) ∧
                   operators = [CheckTrainingHangOperator]
               | _ => True
               end) (fst (iteration self tk)).
Proof.
  destruct (observed tk) as [[|problem others]|e] eqn:Eobs.
  - rewrite (iteration_nothing _ _ Eobs). by repeat constructor.
  - rewrite (iteration_problem _ _ _ _ Eobs). by repeat constructor.
  - rewrite (iteration_raise _ _ _ Eobs). by repeat constructor.
Qed.

Lemma loop_pass_trace (self : DiagnosisManager.t) (tk : tick) :
  _training_problems (_diagnostician self)
    = [mkInference TRAINING ISORNOT HANG] →
  Forall is_hang_check (fst (loop_pass self tk)).
Proof.
  intros Hp. unfold loop_pass.
  destruct (_is_observing_started self); simpl.
  - pose proof (iteration_trace self tk) as Htr.
    destruct (iteration self tk) as [tr [[]|e]]; simpl in *.
    + rewrite app_nil_r. eapply Forall_impl; [exact Htr|].
      intros [] H; simpl in *; try done. by rewrite <- Hp.
    + eapply Forall_impl; [exact Htr|].
      intros [] H; simpl in *; try done. by rewrite <- Hp.
  - by repeat constructor.
Qed.

Lemma step_inv (w : world) (a : action) :
  manager_inv w → manager_inv (step w a).
Proof.
  unfold manager_inv. intros (Hpre & Hprob & Htr).
  destruct a as [d now| |started| |tid tk].
  - done.
  - simpl. split; [done|]. split; [exact Hprob|].
    apply Forall_app. split; [done|]. by repeat constructor.
  - unfold step, start_observing.
    destruct started as [[]|e]; simpl.
    + rewrite lookup_app_r by done. rewrite Nat.sub_diag. simpl.
      split; [done|]. split; [done|].
      rewrite <- !app_assoc. apply Forall_app. split; [done|].
      by repeat constructor.
    + destruct (is_Exception e); simpl.
      * split; [done|]. split; [done|].
        rewrite <- app_assoc. apply Forall_app. split; [done|].
        by repeat constructor.
      * split; [done|]. split; [done|].
        apply Forall_app. split; [done|]. by repeat constructor.
  - simpl. split; [done|]. split; [exact Hprob|].
    apply Forall_app. split; [done|]. by repeat constructor.
  - unfold step, thread_pass.
    destruct (threads w !! tid) as [[]|] eqn:Et; try done.
    assert (Hne : threads w ≠ []) by (intros Hnil; by rewrite Hnil in Et).
    pose proof (loop_pass_trace (self w) tk (Hprob Hne)) as Hpass.
    destruct (loop_pass (self w) tk) as [tr r]. simpl in *.
    split; [done|]. split; [by intros _; apply Hprob|].
    apply Forall_app. by split.
Qed.

Lemma run_inv (actions : list action) (w : world) :
  manager_inv w → manager_inv (fold_left step actions w).
Proof.
  revert w. induction actions as [|a actions IH]; intros w Hw; [done|].
  simpl. by apply IH, step_inv.
Qed.

(** X17: however method calls and loop passes interleave on a new
    manager, the only chain evaluation the engine ever makes is the
    observation of the hang problem with the hang operator; the
    pre-check seeds stay empty, and as soon as a thread exists the
    registered problems are the hang problem alone. *)
Theorem engine_only_checks_hang (actions : list action) :
  Forall is_hang_check (trace (run_manager actions)) ∧
  _pre_checks (_diagnostician (self (run_manager actions))) = [] ∧
  (threads (run_manager actions) ≠ [] →
   _training_problems (_diagnostician (self (run_manager actions)))
     = [mkInference TRAINING ISORNOT HANG]).
Proof.
  assert (H : manager_inv (run_manager actions)).
  { apply run_inv. split; [done|]. split; [done|]. constructor. }
  destruct H as (Hpre & Hprob & Htr). done.
Qed.

Lemma step_threads (w : world) (a : action) :
  length (threads (step w a))
    = (length (threads w) + (if is_started a then 1 else 0))%nat.
Proof.
  destruct a as [d now| |started| |tid tk]; simpl; try lia.
  - unfold start_observing. destruct started as [[]|e]; simpl.
    + rewrite lookup_app_r by done. rewrite Nat.sub_diag. simpl.
      rewrite length_app. simpl. lia.
    + destruct (is_Exception e); simpl; lia.
  - rewrite thread_pass_length. lia.
Qed.

Lemma step_data_manager (w : world) (a : action) :
  _data_manager (self (step w a)) =
    match a with
    | DoCollect d now =>
        DiagnosisDataManager.store_data (_data_manager (self w)) d now
    | _ => _data_manager (self w)
    end.
Proof.
  destruct a as [d now| |started| |tid tk]; simpl; try done.
  - unfold start_observing. destruct started as [[]|e]; simpl.
    + by rewrite lookup_app_r, Nat.sub_diag.
    + by destruct (is_Exception e).
  - by rewrite thread_pass_self.
Qed.

(** X18: threads come from the calls of [start_observing] whose thread
    started, one each, and are never removed: in every run their number
    is the number of those calls, and the loops running are at most as
    many. *)
Theorem threads_count_starts (actions : list action) :
  length (threads (run_manager actions))
    = length (filter (λ a, is_started a = true) actions) ∧
  (running_loops (run_manager actions)
     ≤ length (filter (λ a, is_started a = true) actions))%nat.
Proof.
  assert (H : ∀ w, length (threads (fold_left step actions w))
            = (length (threads w)
               + length (filter (λ a, is_started a = true) actions))%nat).
  { induction actions as [|a actions IH]; intros w; simpl; [lia|].
    rewrite IH, step_threads.
    destruct (is_started a) eqn:Ea.
    - rewrite filter_cons_True by done. simpl. lia.
    - rewrite filter_cons_False by (rewrite Ea; discriminate). lia. }
  split.
  - unfold run_manager. by rewrite H.
  - unfold running_loops. etrans; [apply length_filter|].
    unfold run_manager. by rewrite H.
Qed.

(** X19: the store of the manager is what the collected events make of
    a new store, in the order of their collection: the life-cycle calls,
    [pre_check()] and the passes of the loops do not touch it, and events
    are taken in whatever state the manager is. *)
Theorem store_follows_collected (actions : list action) :
  _data_manager (self (run_manager actions))
    = DiagnosisDataManager.store_all DiagnosisDataManager.init_default
        (collected actions).
Proof.
  assert (H : ∀ w, _data_manager (self (fold_left step actions w))
            = DiagnosisDataManager.store_all (_data_manager (self w))
                (collected actions)).
  { induction actions as [|a actions IH]; intros w; [done|].
    simpl. rewrite IH, step_data_manager.
    destruct a; try done. }
  unfold run_manager. by rewrite H.
Qed.

End Interleavings.

(** ** The master *)

Section MasterProperties.

Import Master.

Lemma stop_exit_code (self : t) : _exit_code (fst (stop self)) = _exit_code self.
Proof. unfold stop. by case_match. Qed.

Lemma stop_components (self : t) :
  node_manager (fst (stop self)) = node_manager self ∧
  job_metric_collector (fst (stop self)) = job_metric_collector self.
Proof. unfold stop. by case_match. Qed.

Lemma stop_reason (self : t) :
  _exit_reason (fst (stop self)) =
    if (_exit_code self =? 0) && negb (truthy (_exit_reason self))
    then Some SUCCEEDED else _exit_reason self.
Proof. unfold stop. by case_match. Qed.

Lemma serve_snoc (self : t) (rqs : list request) (rq : request) :
  serve self (rqs ++ [rq]) =
    (fst (request_stop (fst (serve self rqs)) rq),
     snd (serve self rqs) ++ snd (request_stop (fst (serve self rqs)) rq)).
Proof.
  unfold serve. rewrite fold_left_app. simpl.
  by destruct (request_stop _ rq).
Qed.

Lemma request_stop_keeps (self : t) (rq : request) :
  same_components self (fst (request_stop self rq)) ∧
  (_exit_code (fst (request_stop self rq)) = 0 ∨
   _exit_code (fst (request_stop self rq)) = 1).
Proof. unfold request_stop. destruct (success rq); simpl; split; auto; done. Qed.

Lemma serve_keeps (rqs : list request) (self : t) :
  (_exit_code self = 0 ∨ _exit_code self = 1) →
  same_components self (fst (serve self rqs)) ∧
  (_exit_code (fst (serve self rqs)) = 0 ∨
   _exit_code (fst (serve self rqs)) = 1).
Proof.
  intros Hcode. induction rqs as [|rq rqs IH] using rev_ind; [done|].
  rewrite serve_snoc. simpl.
  destruct IH as [(H1 & H2 & H3) _].
  destruct (request_stop_keeps (fst (serve self rqs)) rq)
    as [(G1 & G2 & G3) Gc].
  split; [|exact Gc]. unfold same_components. by rewrite G1, G2, G3.
Qed.

Lemma body_keeps (self : t) (p : pass) :
  (_exit_code self = 0 ∨ _exit_code self = 1) →
  same_components self (fst (fst (body self p))) ∧
  (_exit_code (fst (fst (body self p))) = 0 ∨
   _exit_code (fst (fst (body self p))) = 1).
Proof.
  intros Hcode. unfold body. repeat case_match; simpl; split; auto; done.
Qed.

Lemma while_true_keeps (passes : list pass) (self : t) :
  (_exit_code self = 0 ∨ _exit_code self = 1) →
  same_components self (fst (fst (while_true self passes))) ∧
  (_exit_code (fst (fst (while_true self passes))) = 0 ∨
   _exit_code (fst (fst (while_true self passes))) = 1).
Proof.
  revert self. induction passes as [|p rest IH]; intros self Hcode; [done|].
  simpl.
  destruct (serve_keeps (requests p) self Hcode) as [(H1 & H2 & H3) Hc1].
  destruct (serve self (requests p)) as [self1 tr0]. simpl in *.
  destruct (body_keeps self1 p Hc1) as [(G1 & G2 & G3) Hc2].
  destruct (body self1 p) as [[self2 tr] []]; simpl in *.
  - split; [|done]. unfold same_components. by rewrite G1, G2, G3.
  - destruct (interrupted p); simpl.
    + split; [|done]. unfold same_components. by rewrite G1, G2, G3.
    + destruct (IH self2 Hc2) as [(K1 & K2 & K3) Hc3].
      destruct (while_true self2 rest) as [[self3 tr'] out]. simpl in *.
      split; [|done]. unfold same_components.
      by rewrite K1, K2, K3, G1, G2, G3.
Qed.

(** X20: when [run()] of a master built by [Master(args)] returns, the
    code it returns is the master's exit code and is 0 or 1, and with the
    code 0 the exit reason is set: the one a [request_stop] gave, or
    [SUCCEEDED]. *)
Theorem run_exit_code (a : args) (passes : list pass)
    (m : t) (tr : list effect) (code : Z) :
  run (snd (init a)) passes = (m, tr, Some code) →
  code = _exit_code m ∧
  (code = 0 ∨ code = 1) ∧
  (code = 0 → truthy (_exit_reason m) = true).
Proof.
  unfold run. intros Hrun.
  assert (Hinit : _exit_code (snd (init a)) = 0 ∨ _exit_code (snd (init a)) = 1).
  { left. unfold init. by destruct (_create_rendezvous_server_if_needed a). }
  destruct (while_true_keeps passes _ Hinit) as [_ Hc].
  destruct (while_true (snd (init a)) passes) as [[m0 tr0] [out|]];
    [|done]. simpl in Hc.
  pose proof (stop_exit_code m0) as Hcode.
  pose proof (stop_reason m0) as Hreason.
  destruct (stop m0) as [m1 tr1]. simpl in *. simplify_eq.
  split; [done|]. split; [by rewrite Hcode|].
  rewrite Hcode. intros H0. rewrite Hreason, H0. simpl.
  by destruct (truthy (_exit_reason m0)) eqn:Et.
Qed.

(** X21: a pass that finds no stop requested, and in which the node
    manager reports that all workers exited and all failed, ends [run()]
    with the code 1 and the reason [UNKNOWN_ERROR], whatever code and
    reason the master had and whatever the task manager would say. *)
Theorem all_workers_failed_exit (self : t) (p : pass) (rest : list pass) :
  _stop_requested self = false →
  requests p = [] →
  node_manager self = true →
  all_workers_exited p = true →
  all_workers_failed p = true →
  ∃ m tr,
    run self (p :: rest) = (m, tr, Some 1) ∧
    _exit_reason m = Some UNKNOWN_ERROR ∧
    Log ERROR "All workers failed" ∈ tr.
Proof.
  intros Hstop Hrq Hnm Hex Hfail.
  unfold run. simpl. rewrite Hrq. simpl. unfold body.
  rewrite Hstop, Hnm, Hex, Hfail. simpl.
  eexists _, _. split; [reflexivity|]. split; [done|].
  apply elem_of_cons. by left.
Qed.

(** X22: on a master just built, a first pass without [request_stop] in
    which the loop is left because the workers exited, not all of them
    failed, or because the tasks are finished, ends [run()] with the
    code 0 and the reason [SUCCEEDED]; unfinished tasks at the exit of
    the workers give a warning and do not change that. *)
Theorem completion_reports_success (a : args) (p : pass) (rest : list pass) :
  requests p = [] →
  (need_node_manager a = true ∧ all_workers_exited p = true ∧
   all_workers_failed p = false) ∨
  (need_task_manager a = true ∧ finished p = true ∧
   (need_node_manager a = false ∨
    (all_workers_exited p = false ∧ all_critical_node_completed p = true))) →
  ∃ m tr,
    run (snd (init a)) (p :: rest) = (m, tr, Some 0) ∧
    _exit_reason m = Some SUCCEEDED.
Proof.
  intros Hrq Hway. unfold run. simpl. rewrite Hrq.
  unfold init. destruct (_create_rendezvous_server_if_needed a) as [tr0 rv].
  simpl. unfold body. simpl.
  destruct Hway as [(Hnm & Hex & Hfail)|(Htm & Hfin & Hnode)].
  - rewrite Hnm, Hex, Hfail. simpl. eexists _, _. by split.
  - rewrite Htm, Hfin. destruct Hnode as [Hnm|[Hex Hcrit]].
    + rewrite Hnm. simpl. eexists _, _. by split.
    + rewrite Hex, Hcrit. destruct (need_node_manager a); simpl;
        eexists _, _; by split.
Qed.

(** X23: a [KeyboardInterrupt] during the sleep of a pass ends [run()]
    through the handler and the [finally] clause, and a master that had
    no failure recorded returns the code 0 with the reason [SUCCEEDED]:
    an interrupted run counts as a success. *)
Theorem interrupt_reports_success (self : t) (p : pass) (rest : list pass) :
  _exit_code self = 0 →
  truthy (_exit_reason self) = false →
  requests p = [] →
  snd (body self p) = Continue →
  interrupted p = true →
  ∃ m tr,
    run self (p :: rest) = (m, tr, Some 0) ∧
    _exit_reason m = Some SUCCEEDED ∧
    Log WARNING "Server stopping" ∈ tr.
Proof.
  intros Hcode Hreason Hrq Hbody Hint.
  unfold run. simpl. rewrite Hrq. simpl.
  assert (Hself : fst (fst (body self p)) = self).
  { revert Hbody. unfold body. repeat case_match; simpl; done. }
  destruct (body self p) as [[self' tr] c]. simpl in *. subst.
  rewrite Hint. unfold stop. rewrite Hcode, Hreason. simpl.
  eexists _, _. split; [reflexivity|]. split; [done|].
  apply elem_of_app. right. apply elem_of_cons. by left.
Qed.

(** X24: the last [request_stop] that comes in before a pass decides how
    [run()] ends: the loop is left at that pass without a question to
    the managers, the code is 0 or 1 as the request says, and the reason
    is the one of the request, but for a success without a reason, which
    becomes [SUCCEEDED]. *)
Theorem request_stop_decides
    (self : t) (p : pass) (rest : list pass)
    (earlier : list request) (rq : request) :
  requests p = earlier ++ [rq] →
  ∃ m tr,
    run self (p :: rest) = (m, tr, Some (if success rq then 0 else 1)) ∧
    _exit_reason m =
      (if success rq && negb (truthy (reason rq))
       then Some SUCCEEDED else reason rq) ∧
    body (fst (serve self (requests p))) p
      = (fst (serve self (requests p)), [], Break).
Proof.
  intros Hrq. unfold run. simpl. rewrite Hrq, serve_snoc.
  assert (Hbody : ∀ s, _stop_requested s = true → body s p = (s, [], Break)).
  { intros s Hs. unfold body. by rewrite Hs. }
  unfold request_stop. destruct (success rq); simpl.
  - rewrite Hbody by done. unfold stop. simpl.
    destruct (truthy (reason rq)); simpl;
      eexists _, _; split; [reflexivity| |reflexivity|]; by split.
  - rewrite Hbody by done. unfold stop. simpl.
    eexists _, _. split; [reflexivity|]. by split.
Qed.

(** X25: a master with neither a node manager nor a task manager does
    not leave the loop by itself: as long as no [request_stop] and no
    interrupt come, [run()] sleeps and goes round, and the master is
    not changed. *)
Theorem no_manager_no_end (self : t) (passes : list pass) :
  node_manager self = false →
  task_manager self = false →
  _stop_requested self = false →
  Forall quiet passes →
  run self passes = (self, map (λ _, Sleep 30) passes, None).
Proof.
  intros Hnm Htm Hstop Hq. unfold run.
  assert (H : while_true self passes
              = (self, map (λ _, Sleep 30) passes, None)).
  { induction Hq as [|p rest [Hrq Hint] _ IH]; [done|].
    simpl. rewrite Hrq. simpl. unfold body.
    rewrite Hstop, Hnm, Htm. simpl. by rewrite Hint, IH. }
  by rewrite H.
Qed.

Lemma serve_trace (rqs : list request) (self : t) :
  Forall is_loop_effect (snd (serve self rqs)).
Proof.
  induction rqs as [|rq rqs IH] using rev_ind; [constructor|].
  rewrite serve_snoc. simpl. apply Forall_app. split; [done|].
  unfold request_stop. destruct (success rq); by repeat constructor.
Qed.

Lemma body_trace (self : t) (p : pass) :
  Forall is_loop_effect (snd (fst (body self p))).
Proof. unfold body. repeat case_match; simpl; by repeat constructor. Qed.

Lemma while_true_trace (passes : list pass) (self : t) :
  Forall is_loop_effect (snd (fst (while_true self passes))).
Proof.
  revert self. induction passes as [|p rest IH]; intros self; [constructor|].
  simpl. pose proof (serve_trace (requests p) self) as H0.
  destruct (serve self (requests p)) as [self1 tr0]. simpl in *.
  pose proof (body_trace self1 p) as H1.
  destruct (body self1 p) as [[self2 tr] []]; simpl in *.
  - apply Forall_app. by split.
  - destruct (interrupted p); simpl.
    + apply Forall_app. by split.
    + specialize (IH self2).
      destruct (while_true self2 rest) as [[self3 tr'] out]. simpl in *.
      rewrite !Forall_app. by repeat split.
Qed.

Lemma loop_effects_filter (P : effect → Prop) `{∀ e, Decision (P e)}
    (tr : list effect) :
  Forall is_loop_effect tr →
  (∀ e, P e → ¬ is_loop_effect e) →
  filter P tr = [].
Proof.
  intros Htr HP. induction Htr as [|e tr He _ IH]; [done|].
  rewrite filter_cons_False; [done|]. intros HPe. by apply (HP e).
Qed.

Lemma stop_trace_facts (self : t) :
  filter (λ e, e = MasterServerStop) (snd (stop self)) = [MasterServerStop] ∧
  filter (λ e, e = NodeManagerStop) (snd (stop self)) = [] ∧
  ∃ front, snd (stop self) = front ++ [Log INFO "Master stopped"].
Proof.
  unfold stop. simpl.
  set (m1 := if (_exit_code self =? 0) && negb (truthy (_exit_reason self))
             then _ else self).
  destruct (job_metric_collector m1); simpl.
  - split; [done|]. split; [done|].
    by exists [LogExitReason (_exit_reason m1);
               ReportJobExitReason (_exit_reason m1);
               Log INFO "Stopping master"; Log INFO "Stopping RPC server";
               MasterServerStop; Log INFO "RPC server stopped"].
  - split; [done|]. split; [done|].
    by exists [LogExitReason (_exit_reason m1);
               Log INFO "Stopping master"; Log INFO "Stopping RPC server";
               MasterServerStop; Log INFO "RPC server stopped"].
Qed.

Lemma while_true_node_manager (passes : list pass) (self : t) :
  node_manager (fst (fst (while_true self passes))) = node_manager self.
Proof.
  revert self. induction passes as [|p rest IH]; intros self; [done|].
  simpl.
  assert (H0 : node_manager (fst (serve self (requests p)))
               = node_manager self).
  { induction (requests p) as [|rq rqs IHr] using rev_ind; [done|].
    rewrite serve_snoc. simpl. rewrite <- IHr.
    unfold request_stop. by destruct (success rq). }
  destruct (serve self (requests p)) as [self1 tr0]. simpl in *.
  assert (H1 : node_manager (fst (fst (body self1 p))) = node_manager self1)
    by (unfold body; repeat case_match; done).
  destruct (body self1 p) as [[self2 tr] []]; simpl in *; [congruence|].
  destruct (interrupted p); simpl; [congruence|].
  specialize (IH self2).
  destruct (while_true self2 rest) as [[self3 tr'] out]. simpl in *.
  congruence.
Qed.

(** X26: whenever [run()] returns, by [break] or by interrupt, its
    [finally] clause has stopped the RPC server exactly once and the
    node manager exactly once if there is one, and the last thing it did
    was to log that the master stopped; the loop itself stops neither. *)
Theorem run_always_stops_components
    (self : t) (passes : list pass) (m : t) (tr : list effect) (code : Z) :
  run self passes = (m, tr, Some code) →
  filter (λ e, e = MasterServerStop) tr = [MasterServerStop] ∧
  filter (λ e, e = NodeManagerStop) tr
    = (if node_manager self then [NodeManagerStop] else []) ∧
  last tr = Some (Log INFO "Master stopped").
Proof.
  unfold run. intros Hrun.
  pose proof (while_true_trace passes self) as Htr.
  pose proof (while_true_node_manager passes self) as Hnm.
  destruct (while_true self passes) as [[m0 tr0] [out|]]; [|done].
  simpl in Htr, Hnm.
  destruct (stop_trace_facts m0) as (Hs1 & Hs2 & Hs3).
  destruct (stop m0) as [m1 tr1]. simpl in *. simplify_eq. rewrite Hnm.
  assert (Hh : Forall is_loop_effect
                 match out with
                 | Broke => []
                 | Interrupted => [Log WARNING "Server stopping"]
                 end) by (destruct out; by repeat constructor).
  split; [|split].
  - rewrite !filter_app, Hs1.
    rewrite (loop_effects_filter _ tr0 Htr) by (intros e -> []).
    rewrite (loop_effects_filter _ _ Hh) by (intros e -> []).
    by destruct (node_manager self).
  - rewrite !filter_app, Hs2.
    rewrite (loop_effects_filter _ tr0 Htr) by (intros e -> []).
    rewrite (loop_effects_filter _ _ Hh) by (intros e -> []).
    by destruct (node_manager self).
  - destruct Hs3 as [front ->]. rewrite !app_assoc. apply last_snoc.
Qed.

(** X27: [stop()] never changes the exit code, and a second [stop()]
    changes nothing the first one left: the reason it reports is the
    same. *)
Theorem stop_twice (self : t) :
  _exit_code (fst (stop self)) = _exit_code self ∧
  fst (stop (fst (stop self))) = fst (stop self) ∧
  snd (stop (fst (stop self))) = snd (stop self).
Proof.
  split; [apply stop_exit_code|].
  unfold stop.
  destruct ((_exit_code self =? 0) && negb (truthy (_exit_reason self)))
    eqn:E; simpl.
  - apply andb_true_iff in E as [E _]. rewrite E. simpl. done.
  - rewrite E. done.
Qed.

(** X28: whatever the arguments, the master that [Master(args)] builds
    has no rendezvous server, so that [prepare()] starts none; it has a
    metric collector exactly when it has a node manager, and [prepare()]
    reports the job type exactly then; the RPC server is started in
    every case, after the components. *)
Theorem prepare_of_new_master (a : args) :
  let m := snd (init a) in
  rendezvous_server m = false ∧
  (RendezvousServerStart ∉ prepare m) ∧
  job_metric_collector m = node_manager m ∧
  (ReportJobType (distribution_strategy a) ∈ prepare m
     ↔ need_node_manager a = true) ∧
  ∃ components,
    prepare m = components ++
      [Log INFO "Starting master RPC server"; MasterServerStart;
       Log INFO "Master RPC server started"] ∧
    (MasterServerStart ∉ components).
Proof.
  assert (Hm : ∀ tr rv, _create_rendezvous_server_if_needed a = (tr, rv) →
                        rv = false).
  { unfold _create_rendezvous_server_if_needed.
    intros tr rv. repeat case_match; by intros [= _ <-]. }
  unfold init.
  pose proof (Hm (fst (_create_rendezvous_server_if_needed a))
                 (snd (_create_rendezvous_server_if_needed a))) as Hrv.
  destruct (_create_rendezvous_server_if_needed a) as [tr0 rv].
  specialize (Hrv eq_refl). simpl in Hrv. subst rv. clear Hm.
  unfold _create_metric_collector_if_needed, prepare, _add_pod_event_callback.
  destruct a as [ddp strategy nm tm]. simpl.
  split; [done|].
  assert (Hnotin : ∀ (x : effect) (l : list effect),
             Forall (λ y, x ≠ y) l → x ∉ l).
  { intros x l Hl Hin. by eapply Forall_forall in Hl. }
  destruct nm, tm; simpl.
  all: split; [apply Hnotin; by repeat constructor|].
  all: split; [done|].
  all: split;
    [first
       [ split; [done|];
         intros _;
         repeat first [apply list_elem_of_here | apply list_elem_of_further]
       | split; [|done];
         intros Hin;
         repeat (apply elem_of_cons in Hin as [Hin|Hin]; [done|]);
         by apply elem_of_nil in Hin ]
    |].
  - exists [SetTaskTimeoutCallback; AddPodEventCallback; TaskManagerStart;
            NodeManagerStart; ReportJobType strategy].
    split; [done|]. apply Hnotin. by repeat constructor.
  - exists [NodeManagerStart; ReportJobType strategy].
    split; [done|]. apply Hnotin. by repeat constructor.
  - exists [TaskManagerStart].
    split; [done|]. apply Hnotin. by repeat constructor.
  - exists []. split; [done|]. apply Hnotin. by repeat constructor.
Qed.

End MasterProperties.

(** ** Instances of the properties above *)

Section StoreInstances.

Import Deque DiagnosisDataManager.

(** An event of type "u" stored beside one of type "t". *)
Lemma store_data_other_types_witness :
  let self := store_data (init 600) (event_at "t" 0) 0 in
  let d := event_at "u" 5 in
  "t" ≠ data_type d ∧
  data (store_data self d 5) !! "t" = data self !! "t" ∧
  get_data (store_data self d 5) "t" = get_data self "t" ∧
  expire_time_period (store_data self d 5) = expire_time_period self.
Proof.
  intros self d.
  assert (Hne : "t" ≠ data_type d) by discriminate.
  split; [exact Hne|].
  exact (store_data_other_types self d 5 "t" Hne).
Defined.

(** A second event of the type, stored at the time of its timestamp. *)
Lemma fresh_event_is_newest_witness :
  let calls := [(event_at "t" 0, 0)] in
  let d := event_at "t" 5 in
  has_expired (timestamp d) 600 5 = false ∧
  last (get_data (store_data (store_all (init 600) calls) d 5) (data_type d))
    = Some d.
Proof.
  intros calls d.
  assert (Hd : has_expired (timestamp d) 600 5 = false) by reflexivity.
  split; [exact Hd|].
  exact (fresh_event_is_newest 600 calls d 5 Hd).
Defined.


(** An event that is stale when it arrives is evicted at once, and its
    type is a key all the same. *)
Lemma keys_are_never_removed_witness :
  let calls := [(event_at "t" 0, timedelta 700)] in
  (is_Some (data init_default !! "t") ∨
   "t" ∈ map (λ c, data_type (fst c)) calls) ∧
  is_Some (data (store_all init_default calls) !! "t").
Proof.
  intros calls.
  assert (H : is_Some (data init_default !! "t") ∨
              "t" ∈ map (λ c, data_type (fst c)) calls)
    by (right; apply list_elem_of_here).
  split; [exact H|].
  exact (keys_are_never_removed init_default calls "t" H).
Defined.


Lemma store_data_keeps_timestamp_order_witness :
  let self := store_data (init 5) (event_at "t" 0) 0 in
  let d := event_at "t" (timedelta 7) in
  let now := timedelta 7 in
  by_timestamp (get_data self (data_type d)) ∧
  Forall (λ e, timestamp e <= timestamp d) (get_data self (data_type d)) ∧
  by_timestamp (get_data (store_data self d now) (data_type d)).
Proof.
  intros self d now.
  assert (E : get_data self (data_type d) = [event_at "t" 0])
    by (vm_compute; reflexivity).
  assert (Hs : by_timestamp (get_data self (data_type d)))
    by (rewrite E; unfold by_timestamp; repeat constructor).
  assert (Hall : Forall (λ e, timestamp e <= timestamp d)
                   (get_data self (data_type d))).
  { rewrite E. repeat constructor. simpl. unfold timedelta. lia. }
  split; [exact Hs|]. split; [exact Hall|].
  exact (store_data_keeps_timestamp_order self d now Hs Hall).
Defined.


End StoreInstances.

Section HeapInstances.

Import Deque Heap.

(** The list read after one store, and two more stores after that. *)
Lemma snapshot_is_stable_witness :
  let st := store_data (init 600) (event_at "t" 0) 0 in
  let calls := [(event_at "t" 5, 5); (event_at "u" 6, 6)] in
  wf st ∧
  ∃ p st',
    get_data st "t" = Some (p, st') ∧
    heap (store_all st' calls) !! p
      = Some (OList (DiagnosisDataManager.get_data (abs st) "t")) ∧
    abs (store_all st' calls) = DiagnosisDataManager.store_all (abs st) calls.
Proof.
  intros st calls.
  assert (Hwf : wf st) by (apply store_data_refines, wf_init).
  split; [exact Hwf|].
  exact (snapshot_is_stable st "t" calls Hwf).
Defined.

Lemma get_data_twice_witness :
  let st := store_data (init 600) (event_at "t" 0) 0 in
  wf st ∧
  ∃ p1 st1 p2 st2 l,
    get_data st "t" = Some (p1, st1) ∧
    get_data st1 "t" = Some (p2, st2) ∧
    p1 ≠ p2 ∧
    heap st2 !! p1 = Some (OList l) ∧
    heap st2 !! p2 = Some (OList l) ∧
    ∀ f, heap (mutate_list st2 p1 f) !! p1 = Some (OList (f l)) ∧
         heap (mutate_list st2 p1 f) !! p2 = Some (OList l).
Proof.
  intros st.
  assert (Hwf : wf st) by (apply store_data_refines, wf_init).
  split; [exact Hwf|].
  exact (get_data_twice st "t" Hwf).
Defined.

End HeapInstances.

Section ManagerInstances.

Import Diagnostician DiagnosisManager.

(** A pass that observes the hang problem twice over. *)
Lemma observed_problem_ends_loop_witness :
  let observing := set_observing init true in
  let tk := {| size := 64; observed := Ok [hang_problem; hang_problem] |} in
  _is_observing_started observing = true ∧
  observed tk = Ok [hang_problem; hang_problem] ∧
  snd (while_true [(observing, tk); (observing, tk)])
    = Crashed TypeError_not_iterable.
Proof.
  intros observing tk.
  split; [reflexivity|]. split; [reflexivity|].
  by rewrite (observed_problem_ends_loop observing tk hang_problem
                [hang_problem] [(observing, tk)] eq_refl eq_refl).
Defined.

(** One loop running, then stop and start in a row. *)
Lemma stop_then_start_keeps_old_loop_witness :
  let w := fst (start_observing start (Ok tt)) in
  let tk := {| size := 64; observed := Ok [] |} in
  let w' := fst (start_observing (stop_observing w) (Ok tt)) in
  threads w !! 0%nat = Some Alive ∧
  observed tk = Ok [] ∧
  threads (thread_pass w' 0 tk) !! 0%nat = Some Alive ∧
  running_loops w' = S (running_loops w).
Proof.
  intros w tk w'.
  split; [reflexivity|]. split; [reflexivity|].
  exact (stop_then_start_keeps_old_loop w 0 tk eq_refl eq_refl).
Defined.

(** Two loops running, stopped together. *)
Lemma stop_ends_every_loop_witness :
  let w := fst (start_observing (fst (start_observing start (Ok tt))) (Ok tt)) in
  let tks := [{| size := 64; observed := Ok [] |};
              {| size := 64; observed := Raise chain_failure |}] in
  (length (threads w) ≤ length tks)%nat ∧
  running_loops w = 2%nat ∧
  running_loops (pass_each (stop_observing w) tks) = 0%nat ∧
  self (pass_each (stop_observing w) tks) = self (stop_observing w).
Proof.
  intros w tks.
  assert (Hlen : (length (threads w) ≤ length tks)%nat) by (simpl; lia).
  split; [exact Hlen|]. split; [reflexivity|].
  exact (stop_ends_every_loop w tks Hlen).
Defined.

End ManagerInstances.

Section MasterInstances.

Import Master.

(** The workers of a new job exit, not all of them failed, while tasks
    are left: the first scenario of the master's tests, with tasks
    unfinished. *)
Lemma run_exit_code_witness :
  let r := run (snd (init ps_job)) [answers true false false false] in
  r = (fst (fst r), snd (fst r), Some 0) ∧
  0 = _exit_code (fst (fst r)) ∧
  (0 = 0 ∨ 0 = 1) ∧
  (0 = 0 → truthy (_exit_reason (fst (fst r))) = true).
Proof.
  intros r.
  assert (H : r = (fst (fst r), snd (fst r), Some 0)) by reflexivity.
  split; [exact H|].
  exact (run_exit_code ps_job [answers true false false false] _ _ 0 H).
Defined.

(** All workers failed, after a quiet pass. *)
Lemma all_workers_failed_exit_witness :
  let self := snd (init ps_job) in
  let p := answers true true true true in
  _stop_requested self = false ∧
  requests p = [] ∧
  node_manager self = true ∧
  all_workers_exited p = true ∧
  all_workers_failed p = true ∧
  ∃ m tr,
    run self [p] = (m, tr, Some 1) ∧
    _exit_reason m = Some UNKNOWN_ERROR ∧
    Log ERROR "All workers failed" ∈ tr.
Proof.
  intros self p.
  do 5 (split; [reflexivity|]).
  exact (all_workers_failed_exit self p [] eq_refl eq_refl eq_refl eq_refl
           eq_refl).
Defined.

(** The second scenario of the master's tests: the tasks are finished
    and the critical nodes completed while a worker is still there. *)
Lemma completion_reports_success_witness :
  let p := answers false false true true in
  requests p = [] ∧
  (need_task_manager ps_job = true ∧ finished p = true ∧
   (need_node_manager ps_job = false ∨
    (all_workers_exited p = false ∧ all_critical_node_completed p = true))) ∧
  ∃ m tr,
    run (snd (init ps_job)) [p] = (m, tr, Some 0) ∧
    _exit_reason m = Some SUCCEEDED.
Proof.
  intros p.
  assert (Hway : need_task_manager ps_job = true ∧ finished p = true ∧
                 (need_node_manager ps_job = false ∨
                  (all_workers_exited p = false ∧
                   all_critical_node_completed p = true)))
    by (split; [reflexivity|]; split; [reflexivity|]; right; by split).
  split; [reflexivity|]. split; [exact Hway|].
  exact (completion_reports_success ps_job p [] eq_refl (or_intror Hway)).
Defined.

(** An interrupt in the first sleep of a new master. *)
Lemma interrupt_reports_success_witness :
  let self := snd (init ps_job) in
  _exit_code self = 0 ∧
  truthy (_exit_reason self) = false ∧
  requests interrupt = [] ∧
  snd (body self interrupt) = Continue ∧
  interrupted interrupt = true ∧
  ∃ m tr,
    run self [interrupt] = (m, tr, Some 0) ∧
    _exit_reason m = Some SUCCEEDED ∧
    Log WARNING "Server stopping" ∈ tr.
Proof.
  intros self.
  do 5 (split; [reflexivity|]).
  exact (interrupt_reports_success self interrupt [] eq_refl eq_refl eq_refl
           eq_refl eq_refl).
Defined.

(** A failure reported while the tasks are finished. *)
Lemma request_stop_decides_witness :
  let self := snd (init ps_job) in
  let rq := {| success := false; reason := Some (OtherReason "CodeError");
               msg := "worker error" |} in
  requests failure_requested = [] ++ [rq] ∧
  ∃ m tr,
    run self [failure_requested] = (m, tr, Some 1) ∧
    _exit_reason m = Some (OtherReason "CodeError").
Proof.
  intros self rq.
  split; [reflexivity|].
  destruct (request_stop_decides self failure_requested [] [] rq eq_refl)
    as (m & tr & Hrun & Hreason & _).
  exists m, tr. split; [exact Hrun|exact Hreason].
Defined.

(** Three quiet passes of a master without managers. *)
Lemma no_manager_no_end_witness :
  let self := snd (init bare_job) in
  let passes := [answers true true true true; answers false false true true;
                 answers true false false false] in
  node_manager self = false ∧
  task_manager self = false ∧
  _stop_requested self = false ∧
  Forall quiet passes ∧
  run self passes = (self, [Sleep 30; Sleep 30; Sleep 30], None).
Proof.
  intros self passes.
  assert (Hq : Forall quiet passes) by (repeat constructor).
  do 3 (split; [reflexivity|]). split; [exact Hq|].
  exact (no_manager_no_end self passes eq_refl eq_refl eq_refl Hq).
Defined.

(** The run that an interrupt ends. *)
Lemma run_always_stops_components_witness :
  let self := snd (init ps_job) in
  let r := run self [answers false false false false; interrupt] in
  r = (fst (fst r), snd (fst r), Some 0) ∧
  filter (λ e, e = MasterServerStop) (snd (fst r)) = [MasterServerStop] ∧
  filter (λ e, e = NodeManagerStop) (snd (fst r)) = [NodeManagerStop] ∧
  last (snd (fst r)) = Some (Log INFO "Master stopped").
Proof.
  intros self r.
  assert (H : r = (fst (fst r), snd (fst r), Some 0)) by reflexivity.
  split; [exact H|].
  exact (run_always_stops_components self _ _ _ 0 H).
Defined.

End MasterInstances.
